(** * A verification development for the RAG ingestion pipeline

    The pipeline has four parts, each embedded below from its source file:

    - [Embedder]  : [app/embedding.py]       (batching, retry with backoff)
    - [Collector] : [app/data_ingestion.py]  (fetching, chunk records)
    - [Indexer]   : [app/indexing.py]        (upload, index convergence)
    - [Retrieval] : [app/agent.py]           ([VectorSearchTool.execute])

    Python code that raises is modelled in a state-and-exception monad;
    the external services (embedding model, HTTP, object storage, the ANN
    service) are oracles or explicit states threaded through the code. *)

From Stdlib Require Import QArith Ascii String.
From stdpp Require Import base option list strings gmap pretty.

(** ** Python exceptions and the state-and-exception monad *)

Module Py.

(** The exception classes the code names or raises.  A class stands for
    itself and its subclasses: [RequestException] is
    [requests.exceptions.RequestException] with [ConnectionError],
    [Timeout], [InvalidURL] and so on.  Every class below derives from
    Python's [Exception]. *)
Inductive exn_class :=
| RequestException
| IndexError
| KeyError
| StopIteration
| ValueError
| FileNotFoundError
| Exception
| OtherError (name : string).

Record exn := Exn { exn_cls : exn_class; exn_msg : string }.

(** [isinstance(e, requests.exceptions.RequestException)] *)
Definition is_RequestException (e : exn) : bool :=
  match exn_cls e with RequestException => true | _ => false end.

(** [isinstance(e, Exception)] *)
Definition is_Exception (e : exn) : bool := true.

(** A computation over a state [S] that returns an [A] or raises. *)
Definition M (S A : Type) : Type := S → (exn + A) * S.

Definition ret {S A} (a : A) : M S A := λ s, (inr a, s).

Definition bind {S A B} (m : M S A) (k : A → M S B) : M S B :=
  λ s, match m s with
       | (inr a, s') => k a s'
       | (inl e, s') => (inl e, s')
       end.

Definition raise {S A} (e : exn) : M S A := λ s, (inl e, s).

(** [try: m  except <classes accepted by catches> as e: h e] *)
Definition try_except {S A} (m : M S A) (catches : exn → bool)
    (h : exn → M S A) : M S A :=
  λ s, match m s with
       | (inr a, s') => (inr a, s')
       | (inl e, s') => if catches e then h e s' else (inl e, s')
       end.

Definition get {S} : M S S := λ s, (inr s, s).
Definition modify {S} (f : S → S) : M S unit := λ s, (inr tt, f s).

#[global] Instance M_ret {S} : MRet (M S) := λ A, ret.
#[global] Instance M_bind {S} : MBind (M S) := λ A B k m, bind m k.

(** [for x in l: body x] *)
Fixpoint for_each {S A} (l : list A) (body : A → M S unit) : M S unit :=
  match l with
  | [] => ret tt
  | x :: l' => bind (body x) (λ _, for_each l' body)
  end.

(** [[f x for x in l]] where [f] may raise *)
Fixpoint comprehension {S A B} (f : A → M S B) (l : list A) : M S (list B) :=
  match l with
  | [] => ret []
  | x :: l' => bind (f x) (λ y, bind (comprehension f l') (λ ys, ret (y :: ys)))
  end.

Definition result {S A} (r : (exn + A) * S) : exn + A := r.1.
Definition final {S A} (r : (exn + A) * S) : S := r.2.

Definition returns {A} (r : exn + A) : bool :=
  match r with inr _ => true | inl _ => false end.

End Py.

Import Py.

(** ** JSON values, and records as JSON objects *)

#[warnings="-register-all"]
Inductive json :=
| JString (s : string)
| JNumber (q : Q)
| JArray (l : list json).

(** A record of the line-delimited files is a Python [dict] with string
    keys. *)
Abbreviation item := (gmap string json).

(** An embedding vector, the [.values] of a service result. *)
Abbreviation vector := (list Q).

Definition json_of_vector (v : vector) : json := JArray (JNumber <$> v).

(** ** The Embedder, [app/embedding.py] *)

Module Embedder.

(** What the Embedder does to the outside world, in order.  Its console
    output is left out. *)
Inductive event :=
| GetEmbeddings (texts : list json)   (* model.get_embeddings(texts) *)
| Sleep (delay : Z)                   (* time.sleep(delay) *)
| WriteLine (it : item).              (* outfile.write(json.dumps(item) + '\n') *)

Definition is_call (e : event) : bool :=
  match e with GetEmbeddings _ => true | _ => false end.

(** Number of requests sent to the embedding service so far. *)
Definition attempts (t : list event) : nat := length (filter is_call t).

(** The lines of [EMBEDDED_DATA_FILE], which is opened with mode ['w']. *)
Definition outfile (t : list event) : list item :=
  omap (λ e, match e with WriteLine it => Some it | _ => None end) t.

(** The delays slept, in order. *)
Definition sleeps (t : list event) : list Z :=
  omap (λ e, match e with Sleep d => Some d | _ => None end) t.

(** The requests sent to the service, in order. *)
Definition requests (t : list event) : list (list json) :=
  omap (λ e, match e with GetEmbeddings x => Some x | _ => None end) t.

Definition emit (e : event) : M (list event) unit := modify (λ t, t ++ [e]).

Section WithService.

(** The embedding service: what the [n]-th request (counted from 0 over
    the whole run) answers when sent [texts]. *)
Variable embedding_service : nat → list json → exn + list vector.

(** [EMBEDDING_BATCH_SIZE = int(os.environ.get(..., 5))] *)
Variable EMBEDDING_BATCH_SIZE : Z.

Definition get_embeddings (texts : list json) : M (list event) (list vector) :=
  λ t, (embedding_service (attempts t) texts, t ++ [GetEmbeddings texts]).

(** The body of [for _ in range(n)] with the current [delay]. *)
Fixpoint retry_loop (n : nat) (delay : Z) (texts : list json)
    : M (list event) (list vector) :=
  match n with
  | O => raise (Exn Exception "Failed to get embeddings after multiple retries.")
  | S n' =>
      try_except (get_embeddings texts) is_Exception
        (λ _, emit (Sleep delay) ;; retry_loop n' (delay * 2) texts)
  end.

Definition get_embeddings_with_retry (texts : list json)
    : M (list event) (list vector) :=
  retry_loop 5 1 texts.

(** [item["text"]] *)
Definition item_text (it : item) : M (list event) json :=
  match it !! "text" with
  | Some x => ret x
  | None => raise (Exn KeyError "'text'")
  end.

(** [for j, item in enumerate(batch): item["embedding"] = embeddings[j].values; write] *)
Fixpoint write_items (embeddings : list vector) (j : nat) (batch : list item)
    : M (list event) unit :=
  match batch with
  | [] => ret tt
  | it :: rest =>
      match embeddings !! j with
      | None => raise (Exn IndexError "list index out of range")
      | Some v =>
          emit (WriteLine (<["embedding" := json_of_vector v]> it)) ;;
          write_items embeddings (S j) rest
      end
  end.

(** The block run on a full batch and on the last batch. *)
Definition process_batch (batch : list item) : M (list event) unit :=
  texts ← comprehension item_text batch;
  try_except
    (embeddings ← get_embeddings_with_retry texts;
     write_items embeddings 0 batch)
    is_Exception
    (λ _, ret tt).

(** [for line in infile], with the loop variable [batch]; returns the
    batch left over when the file ends. *)
Fixpoint read_lines (infile : list item) (batch : list item)
    : M (list event) (list item) :=
  match infile with
  | [] => ret batch
  | it :: rest =>
      let batch := batch ++ [it] in
      if bool_decide (EMBEDDING_BATCH_SIZE ≤ Z.of_nat (length batch))%Z
      then process_batch batch ;; read_lines rest []
      else read_lines rest batch
  end.

Definition generate_embeddings (infile : list item) : M (list event) unit :=
  batch ← read_lines infile [];
  match batch with
  | [] => ret tt
  | _ => process_batch batch
  end.

(** *** Vocabulary of the Embedder's properties *)

(** The texts [process_batch] sends for a batch, when every record has one. *)
Definition texts_of (batch : list item) : option (list json) :=
  mapM (λ it : item, it !! "text") batch.

(** The embedding service fails the five requests that follow trace [t]
    when asked for [texts]. *)
Definition exhausted (t : list event) (texts : list json) : Prop :=
  ∀ k, k < 5 → returns (embedding_service (attempts t + k) texts) = false.

(** [vs] is what the service answered for [batch], or is empty when the
    batch was skipped. *)
Definition answer_of (batch : list item) (vs : list vector) : Prop :=
  vs = [] ∨ ∃ n texts, texts_of batch = Some texts
                       ∧ embedding_service n texts = inr vs.

(** What a permanently failing call adds to the trace. *)
Definition failed_call (texts : list json) : list event :=
  [GetEmbeddings texts; Sleep 1; GetEmbeddings texts; Sleep 2;
   GetEmbeddings texts; Sleep 4; GetEmbeddings texts; Sleep 8;
   GetEmbeddings texts; Sleep 16].

End WithService.

(** A record with the vector [v] stored under ["embedding"]. *)
Definition with_embedding (it : item) (v : vector) : item :=
  <["embedding" := json_of_vector v]> it.

(** A batch is processed as soon as it holds at least [EMBEDDING_BATCH_SIZE]
    records, which is after its first record when the size is below 1. *)
Definition effective_batch_size (B : Z) : nat := Z.to_nat (Z.max 1 B).

(** [ceil(n / b)] *)
Definition ceil_div (n b : nat) : nat := (n + b - 1) / b.

(** The records of [l] cut into consecutive batches of [b] records, in
    order, the last one shorter when [b] does not divide the length. *)
Fixpoint batches_from (fuel b : nat) (l : list item) : list (list item) :=
  match fuel with
  | O => []
  | S fuel' =>
      match l with
      | [] => []
      | _ => take b l :: batches_from fuel' b (drop b l)
      end
  end.

Definition consecutive_batches (b : nat) (l : list item) : list (list item) :=
  batches_from (length l) b l.

End Embedder.

(** ** Strings as Python uses them *)

Module Str.

(** ["\n"] *)
Definition nl : string := String (Ascii.ascii_of_nat 10) EmptyString.

(** [needle in hay] *)
Fixpoint contains (needle hay : string) : bool :=
  String.prefix needle hay ||
  match hay with
  | EmptyString => false
  | String _ hay' => contains needle hay'
  end.

(** [sep.join(l)] *)
Definition join (sep : string) (l : list string) : string := String.concat sep l.

(** [s.split(c1 + c2)] for a separator of two characters; [cur] is the
    piece being read. *)
Fixpoint split2 (c1 c2 : ascii) (s cur : string) : list string :=
  match s with
  | EmptyString => [cur]
  | String a s' =>
      match s' with
      | String b s'' =>
          if Ascii.eqb a c1 && Ascii.eqb b c2
          then cur :: split2 c1 c2 s'' EmptyString
          else split2 c1 c2 s' (cur +:+ String a EmptyString)
      | EmptyString => [cur +:+ String a EmptyString]
      end
  end.

(** [s.replace(c, '')] for a single character [c] *)
Fixpoint remove_char (c : ascii) (s : string) : string :=
  match s with
  | EmptyString => EmptyString
  | String a s' =>
      if Ascii.eqb a c then remove_char c s' else String a (remove_char c s')
  end.

(** [s.endswith(c)] for a single character [c] *)
Fixpoint ends_with_char (c : ascii) (s : string) : bool :=
  match s with
  | EmptyString => false
  | String a EmptyString => Ascii.eqb a c
  | String _ s' => ends_with_char c s'
  end.

(** [os.path.basename(p)]: what follows the last ['/']; [cur] is the part
    read since the last ['/']. *)
Fixpoint basename_from (p cur : string) : string :=
  match p with
  | EmptyString => cur
  | String a p' =>
      if Ascii.eqb a "/"%char then basename_from p' EmptyString
      else basename_from p' (cur +:+ String a EmptyString)
  end.

Definition basename (p : string) : string := basename_from p EmptyString.

(** [os.path.join(a, b)] on a POSIX system *)
Definition path_join (a b : string) : string :=
  if String.prefix "/" b then b
  else if String.eqb a "" || ends_with_char "/"%char a then a +:+ b
  else a +:+ "/" +:+ b.

End Str.

(** ** The Collector, [app/data_ingestion.py] *)

Module Collector.

(** What [requests.get] returns. *)
Record response := Response { status_code : Z; content : string }.

(** The file [INGESTED_DATA_FILE], the console, and how many ids
    [uuid.uuid4()] has handed out. *)
Record world := World {
  outfile : list item;
  stdout : list string;
  uuids_drawn : nat
}.

Definition print (line : string) : M world unit :=
  modify (λ w, World (outfile w) (stdout w ++ [line]) (uuids_drawn w)).

(** [open(INGESTED_DATA_FILE, "w")]: the file is truncated. *)
Definition open_w : M world unit :=
  modify (λ w, World [] (stdout w) (uuids_drawn w)).

(** [outfile.write(json.dumps(record) + '\n')] *)
Definition write_line (it : item) : M world unit :=
  modify (λ w, World (outfile w ++ [it]) (stdout w) (uuids_drawn w)).

(** Lifts the answer of an outside service into the monad. *)
Definition ask {A} (r : exn + A) : M world A := λ w, (r, w).

(** Python truthiness of [content], a string or [None]. *)
Definition truthy (content : option string) : bool :=
  match content with
  | Some s => negb (String.eqb s "")
  | None => false
  end.

Section WithEnvironment.

(** [urlparse(url).netloc]; [urlparse] raises [ValueError] on some
    malformed URLs. *)
Variable netloc : string → exn + string.

(** [requests.get(url, timeout=10)] *)
Variable requests_get : string → exn + response.

(** [BeautifulSoup(content, "html.parser")], dropping [script] and [style]
    and joining [stripped_strings] with a space. *)
Variable soup_text : string → exn + string.

(** [YouTubeTranscriptApi.get_transcript(video_id)], as the [d['text']] of
    its entries. *)
Variable get_transcript : string → exn + list string.

(** [text_splitter.split_text], the [RecursiveCharacterTextSplitter] built
    with [CHUNK_SIZE] and [CHUNK_OVERLAP]. *)
Variable split_text : string → list string.

(** The value of the [n]-th call of [str(uuid.uuid4())] in the run. *)
Variable uuid4 : nat → string.

Definition new_uuid : M world string :=
  λ w, (inr (uuid4 (uuids_drawn w)),
        World (outfile w) (stdout w) (S (uuids_drawn w))).

Definition get_youtube_transcript (url : string) : M world (option string) :=
  try_except
    (video_id ← match Str.split2 "v"%char "="%char url EmptyString !! 1%nat with
                | Some v => ret v
                | None => raise (Exn IndexError "list index out of range")
                end;
     transcript_list ← ask (get_transcript video_id);
     ret (Some (Str.join " " transcript_list)))
    is_Exception
    (λ e, print ("Error getting YouTube transcript from " +:+ url +:+ ": "
                 +:+ exn_msg e) ;;
          ret None).

Definition scrape_web_page (url : string) : M world (option string) :=
  try_except
    (response ← ask (requests_get url);
     text ← ask (soup_text (content response));
     ret (Some text))
    is_RequestException
    (λ e, print ("Error scraping " +:+ url +:+ ": " +:+ exn_msg e) ;;
          ret None).

Definition get_github_repo_content (url : string) : M world (option string) :=
  print "Skipping GitHub repository for now. We will handle this separately." ;;
  ret None.

(** The record written for one chunk. *)
Definition chunk_with_metadata (id chunk url domain : string) : item :=
  <["id" := JString id]> (<["text" := JString chunk]>
    (<["source" := JString url]> (<["title" := JString domain]> ∅))).

(** The body of [for url in urls]. *)
Definition ingest_url (url : string) : M world unit :=
  print ("Ingesting content from: " +:+ url) ;;
  domain ← ask (netloc url);
  content ←
    (if Str.contains "youtube.com" domain then get_youtube_transcript url
     else if Str.contains "github.com" domain then get_github_repo_content url
     else scrape_web_page url);
  if truthy content then
    let chunks := split_text (default "" content) in
    for_each chunks (λ chunk,
      id ← new_uuid;
      write_line (chunk_with_metadata id chunk url domain)) ;;
    print ("  - Ingested " +:+ pretty (length chunks) +:+ " chunks.")
  else ret tt.

Definition ingest_urls (urls : list string) : M world unit :=
  open_w ;;
  for_each urls ingest_url ;;
  print (Str.nl +:+ "Successfully ingested content and saved to ingested_data.jsonl.").

(** *** Vocabulary of the Collector's properties *)

(** The value of a record under [key]. *)
Definition field (key : string) (rec : item) : option json := rec !! key.

(** A record made for [url] whose domain is [domain]. *)
Definition made_for (url domain : string) (rec : item) : Prop :=
  ∃ chunk id,
    rec = chunk_with_metadata id chunk url domain
    ∧ field "id" rec = Some (JString id)
    ∧ field "text" rec = Some (JString chunk)
    ∧ field "source" rec = Some (JString url)
    ∧ field "title" rec = Some (JString domain).

(** A group, the records written for one URL of the run, is empty or holds
    records made for that URL. *)
Definition group_ok (g : string * list item) : Prop :=
  g.2 = [] ∨ ∃ domain, netloc g.1 = inr domain ∧ Forall (made_for g.1 domain) g.2.

(** The records of the chunks of one URL when [first] ids were drawn
    before. *)
Definition records_for (url domain : string) (first : nat)
    (chunks : list string) : list item :=
  imap (λ k chunk, chunk_with_metadata (uuid4 (first + k)) chunk url domain)
       chunks.

End WithEnvironment.

(** A step that leaves the output file and the id counter alone. *)
Definition quiet {A} (m : M world A) : Prop :=
  ∀ w, outfile (m w).2 = outfile w ∧ uuids_drawn (m w).2 = uuids_drawn w.

End Collector.

(** ** The Indexer, [app/indexing.py] *)

Module Indexer.

(** One entry of an index's [deployed_indexes]. *)
Record deployed_index_ref := DeployedIndexRef {
  index_endpoint : string;
  deployed_index_id : string
}.

Record index := Index {
  index_resource_name : string;
  index_display_name : string;
  contents_delta_uri : string;
  dimensions : Z;
  approximate_neighbors_count : Z;
  distance_measure_type : string;
  deployed_indexes : list deployed_index_ref
}.

Record endpoint := Endpoint {
  endpoint_resource_name : string;
  endpoint_display_name : string;
  public_endpoint_enabled : bool
}.

(** The requests that change something in the cloud project. *)
Inductive request :=
| CreateBucket (bucket_name location : string)
| UploadFromFilename (bucket_name blob_name source_file : string)
| CreateTreeAhIndex (display_name uri : string)
| CreateEndpoint (display_name : string)
| DeployIndex (endpoint_name index_name deployed_id machine_type : string)
    (min_replica_count max_replica_count : Z).

(** The cloud project and the machine the Indexer runs on; the console
    output of the Indexer is left out.  The object
    store maps a bucket to its blobs; the ANN service lists indexes and
    endpoints in a fixed order, a new resource last, and names a new
    resource after [next_id].  [api_log] records the changing requests. *)
Record cloud := Cloud {
  buckets : gmap string (gmap string string);
  indexes : list index;
  endpoints : list endpoint;
  local_files : gmap string string;
  clock : Z;
  next_id : nat;
  api_log : list request
}.

Definition set_buckets (b : gmap string (gmap string string)) (c : cloud) : cloud :=
  Cloud b (indexes c) (endpoints c) (local_files c) (clock c) (next_id c) (api_log c).
Definition set_indexes (l : list index) (c : cloud) : cloud :=
  Cloud (buckets c) l (endpoints c) (local_files c) (clock c) (next_id c) (api_log c).
Definition set_endpoints (l : list endpoint) (c : cloud) : cloud :=
  Cloud (buckets c) (indexes c) l (local_files c) (clock c) (next_id c) (api_log c).
Definition set_clock (t : Z) (c : cloud) : cloud :=
  Cloud (buckets c) (indexes c) (endpoints c) (local_files c) t (next_id c) (api_log c).
Definition bump_id (c : cloud) : cloud :=
  Cloud (buckets c) (indexes c) (endpoints c) (local_files c) (clock c)
        (S (next_id c)) (api_log c).
Definition log (r : request) (c : cloud) : cloud :=
  Cloud (buckets c) (indexes c) (endpoints c) (local_files c) (clock c) (next_id c)
        (api_log c ++ [r]).

Definition is_create_index (r : request) : bool :=
  match r with CreateTreeAhIndex _ _ => true | _ => false end.
Definition is_create_endpoint (r : request) : bool :=
  match r with CreateEndpoint _ => true | _ => false end.

(** The entry of [deployed_indexes] an index gets when deployed. *)
Definition add_deployment (index_name : string) (d : deployed_index_ref)
    (ix : index) : index :=
  if String.eqb (index_resource_name ix) index_name then
    Index (index_resource_name ix) (index_display_name ix) (contents_delta_uri ix)
          (dimensions ix) (approximate_neighbors_count ix)
          (distance_measure_type ix) (deployed_indexes ix ++ [d])
  else ix.

Section WithConfig.

Variables PROJECT_ID LOCATION : string.
Variables EMBEDDED_DATA_FILE GCS_BUCKET_NAME GCS_UPLOAD_FOLDER : string.
Variables INDEX_DISPLAY_NAME ENDPOINT_DISPLAY_NAME : string.
Variable EMBEDDING_DIMENSIONS : Z.

(** *** The object store *)

(** [storage_client.get_bucket(bucket_name)] *)
Definition get_bucket (bucket_name : string) : M cloud unit :=
  c ← get;
  match buckets c !! bucket_name with
  | Some _ => ret tt
  | None => raise (Exn (OtherError "NotFound") bucket_name)
  end.

(** [storage_client.create_bucket(bucket_name, location=LOCATION)] *)
Definition create_bucket (bucket_name : string) : M cloud unit :=
  c ← get;
  match buckets c !! bucket_name with
  | Some _ => raise (Exn (OtherError "Conflict") bucket_name)
  | None =>
      modify (λ c, log (CreateBucket bucket_name LOCATION)
                       (set_buckets (<[bucket_name := ∅]> (buckets c)) c))
  end.

(** [bucket.blob(blob_name).exists()] *)
Definition blob_exists (bucket_name blob_name : string) : M cloud bool :=
  c ← get;
  ret (bool_decide (is_Some (buckets c !! bucket_name ≫= λ b, b !! blob_name))).

(** [blob.upload_from_filename(source_file)] *)
Definition upload_from_filename (bucket_name blob_name source_file : string)
    : M cloud unit :=
  c ← get;
  match local_files c !! source_file with
  | None => raise (Exn FileNotFoundError source_file)
  | Some data =>
      modify (λ c,
        log (UploadFromFilename bucket_name blob_name source_file)
            (set_buckets
               (<[bucket_name :=
                    <[blob_name := data]> (default ∅ (buckets c !! bucket_name))]>
                  (buckets c)) c))
  end.

Definition upload_data_to_gcs (source_file bucket_name destination_folder : string)
    : M cloud string :=
  try_except (get_bucket bucket_name) is_Exception
    (λ _, create_bucket bucket_name) ;;
  let destination_blob_name :=
    Str.path_join destination_folder (Str.basename source_file) in
  already ← blob_exists bucket_name destination_blob_name;
  (if already : bool then ret tt
   else upload_from_filename bucket_name destination_blob_name source_file) ;;
  ret ("gs://" +:+ bucket_name +:+ "/" +:+ destination_blob_name).

(** *** The ANN service *)

Definition resource_name (kind : string) (n : nat) : string :=
  "projects/" +:+ PROJECT_ID +:+ "/locations/" +:+ LOCATION +:+ "/" +:+ kind
  +:+ "/" +:+ pretty n.

(** [MatchingEngineIndex.create_tree_ah_index(...)] followed by [wait()] *)
Definition create_tree_ah_index (display_name uri : string) (dims neighbors : Z)
    (distance : string) : M cloud index :=
  c ← get;
  let ix := Index (resource_name "indexes" (next_id c)) display_name uri dims
                  neighbors distance [] in
  modify (λ c, log (CreateTreeAhIndex display_name uri)
                   (bump_id (set_indexes (indexes c ++ [ix]) c))) ;;
  ret ix.

(** [MatchingEngineIndexEndpoint.create(...)] *)
Definition create_endpoint (display_name : string) (public : bool)
    : M cloud endpoint :=
  c ← get;
  let ep := Endpoint (resource_name "indexEndpoints" (next_id c)) display_name
                     public in
  modify (λ c, log (CreateEndpoint display_name)
                   (bump_id (set_endpoints (endpoints c ++ [ep]) c))) ;;
  ret ep.

(** [my_endpoint.deploy_index(index=..., deployed_index_id=..., ...)] *)
Definition deploy_index (ep : endpoint) (ix : index)
    (deployed_id machine_type : string) (min_replicas max_replicas : Z)
    : M cloud unit :=
  modify (λ c,
    log (DeployIndex (endpoint_resource_name ep) (index_resource_name ix)
           deployed_id machine_type min_replicas max_replicas)
        (set_indexes
           (add_deployment (index_resource_name ix)
              (DeployedIndexRef (endpoint_resource_name ep) deployed_id)
            <$> indexes c) c)).

(** [next(x for x in l if x.display_name == name)], as the [for]/[break]
    loops of the source find it. *)
Definition find_index (name : string) (l : list index) : option index :=
  List.find (λ ix, String.eqb (index_display_name ix) name) l.

Definition find_endpoint (name : string) (l : list endpoint) : option endpoint :=
  List.find (λ ep, String.eqb (endpoint_display_name ep) name) l.

(** Steps 4 to 6 of [create_and_deploy_index]: find or create the endpoint
    and deploy [my_index] to it. *)
Definition deploy_to_endpoint (my_index : index) : M cloud string :=
  c ← get;
  my_endpoint ←
    match find_endpoint ENDPOINT_DISPLAY_NAME (endpoints c) with
    | Some ep => ret ep
    | None => create_endpoint ENDPOINT_DISPLAY_NAME true
    end;
  c ← get;
  let deployed_index_id :=
    "deployed_" +:+ Str.remove_char "_"%char INDEX_DISPLAY_NAME +:+ "_"
    +:+ pretty (clock c) in
  deploy_index my_endpoint my_index deployed_index_id "n1-standard-16" 1 2 ;;
  ret (endpoint_resource_name my_endpoint).

(** Returns the resource name of the endpoint object the source returns. *)
Definition create_and_deploy_index (gcs_uri : string) : M cloud string :=
  c ← get;
  let my_index := find_index INDEX_DISPLAY_NAME (indexes c) in
  match my_index ≫= λ ix, head (deployed_indexes ix) with
  | Some d => ret (index_endpoint d)
  | None =>
      my_index ←
        match my_index with
        | Some ix => ret ix
        | None =>
            create_tree_ah_index INDEX_DISPLAY_NAME gcs_uri EMBEDDING_DIMENSIONS
              150 "DOT_PRODUCT_DISTANCE"
        end;
      deploy_to_endpoint my_index
  end.

(** The [__main__] block; [None] when the input file is missing. *)
Definition main : M cloud (option string) :=
  c ← get;
  match local_files c !! EMBEDDED_DATA_FILE with
  | None => ret None
  | Some _ =>
      gcs_data_path ←
        upload_data_to_gcs EMBEDDED_DATA_FILE GCS_BUCKET_NAME GCS_UPLOAD_FOLDER;
      index_endpoint ← create_and_deploy_index gcs_data_path;
      ret (Some index_endpoint)
  end.

(** *** Vocabulary of the Indexer's properties *)

(** The index found under [INDEX_DISPLAY_NAME] is deployed, first to the
    endpoint named [ep]. *)
Definition converged (c : cloud) (ep : string) : Prop :=
  ∃ ix d ds,
    find_index INDEX_DISPLAY_NAME (indexes c) = Some ix
    ∧ deployed_indexes ix = d :: ds
    ∧ index_endpoint d = ep.

(** The object at the destination of [source_file] exists. *)
Definition uploaded (c : cloud) (source_file bucket_name destination_folder : string)
    : Prop :=
  ∃ blobs data,
    buckets c !! bucket_name = Some blobs
    ∧ blobs !! Str.path_join destination_folder (Str.basename source_file)
      = Some data.

End WithConfig.

(** How many requests of the kind [p] the project has received. *)
Definition count_requests (p : request → bool) (c : cloud) : nat :=
  length (filter p (api_log c)).

End Indexer.

(** ** The retrieval tool, [VectorSearchTool] of [app/agent.py] *)

Module Retrieval.

(** One entry of [neighbor.metadata.strings]. *)
Record string_attribute := StringAttribute { name : string; string_value : string }.

Record neighbor := Neighbor {
  distance : Q;
  metadata_strings : list string_attribute
}.

(** One entry of [response.nearest_neighbors]: the neighbors of one query. *)
Record result_set := ResultSet { neighbors : list neighbor }.

Record find_neighbors_response := FindNeighborsResponse {
  nearest_neighbors : list result_set
}.

Record query := Query {
  query_vector : vector;
  neighbor_count : Z;
  return_full_datums : bool
}.

Record find_neighbors_request := FindNeighborsRequest {
  index_endpoint : string;
  deployed_index_id : string;
  queries : list query
}.

(** [m >>= k] for a computation without state. *)
Definition and_then {A B} (m : exn + A) (k : A → exn + B) : exn + B :=
  match m with
  | inr a => k a
  | inl e => inl e
  end.

(** [[f x for x in l]], raising at the first [x] on which [f] raises. *)
Fixpoint collect {A B} (f : A → exn + B) (l : list A) : exn + list B :=
  match l with
  | [] => inr []
  | x :: l' => and_then (f x) (λ y, and_then (collect f l') (λ ys, inr (y :: ys)))
  end.

(** [next(item.string_value for item in strings if item.name == key)] *)
Definition next_string_value (key : string) (strings : list string_attribute)
    : exn + string :=
  match List.find (λ it, String.eqb (name it) key) strings with
  | Some it => inr (string_value it)
  | None => inl (Exn StopIteration "")
  end.

(** [f"Source: {source}\nContent: {text}"] *)
Definition block (source text : string) : string :=
  "Source: " +:+ source +:+ Str.nl +:+ "Content: " +:+ text.

(** The body of [for neighbor in ...], giving the string appended. *)
Definition neighbor_block (nb : neighbor) : exn + string :=
  and_then (next_string_value "text" (metadata_strings nb)) (λ text,
  and_then (next_string_value "source" (metadata_strings nb)) (λ source,
  inr (block source text))).

Definition no_results : string :=
  "No relevant documents found in the knowledge base.".

Section WithServices.

(** [self.embedding_model.get_embeddings] *)
Variable get_embeddings : list string → exn + list vector.

(** [self.client.find_neighbors] *)
Variable find_neighbors : find_neighbors_request → exn + find_neighbors_response.

Variables endpoint_name DEPLOYED_INDEX_ID : string.

Definition execute (query_text : string) : exn + string :=
  and_then (get_embeddings [query_text]) (λ embeddings,
  and_then (match embeddings with
            | v :: _ => inr v
            | [] => inl (Exn IndexError "list index out of range")
            end) (λ query_embedding,
  let request :=
    FindNeighborsRequest endpoint_name DEPLOYED_INDEX_ID
      [Query query_embedding 3 true] in
  and_then (find_neighbors request) (λ response,
  and_then (match nearest_neighbors response with
            | first :: _ => collect neighbor_block (neighbors first)
            | [] => inr []
            end) (λ results,
  match results with
  | [] => inr no_results
  | _ => inr (Str.join (Str.nl +:+ Str.nl) results)
  end)))).

End WithServices.

(** *** Vocabulary of the retrieval tool's properties *)

(** The string attribute [key] of a neighbor, when it has one. *)
Definition attribute (key : string) (nb : neighbor) : option string :=
  string_value <$> List.find (λ it, String.eqb (name it) key) (metadata_strings nb).

Definition has_attributes (nb : neighbor) : Prop :=
  is_Some (attribute "text" nb) ∧ is_Some (attribute "source" nb).

(** The block of a neighbor that has both attributes. *)
Definition block_of (nb : neighbor) : string :=
  block (default "" (attribute "source" nb)) (default "" (attribute "text" nb)).

(** The neighbors of every result set of the response. *)
Definition all_neighbors (response : find_neighbors_response) : list neighbor :=
  concat (neighbors <$> nearest_neighbors response).

(** The neighbors of the first result set of the response. *)
Definition first_neighbors (response : find_neighbors_response) : list neighbor :=
  match nearest_neighbors response with
  | first :: _ => neighbors first
  | [] => []
  end.

(** The blocks joined by an empty line, or the sentinel when there is none. *)
Definition rendering (nbs : list neighbor) : string :=
  match nbs with
  | [] => no_results
  | _ => Str.join (Str.nl +:+ Str.nl) (block_of <$> nbs)
  end.

(** The request [execute] sends for the query vector [v]. *)
Definition request_for (endpoint_name deployed_index_id : string) (v : vector)
    : find_neighbors_request :=
  FindNeighborsRequest endpoint_name deployed_index_id [Query v 3 true].

End Retrieval.

(** ** Concrete services and inputs, used to run the code *)

Module Scenario.

(** *** For the Embedder *)

Definition rate_limited : exn := Exn (OtherError "ResourceExhausted") "429 Quota exceeded".

(** A service that fails every request. *)
Definition always_failing : nat → list json → exn + list vector :=
  λ _ _, inl rate_limited.

(** A service that answers its first request, one vector per text, and
    fails every later one. *)
Definition first_request_only : nat → list json → exn + list vector :=
  λ n texts,
    match n with
    | O => inr ((λ _, [1 # 2; 1 # 4]%Q) <$> texts)
    | S _ => inl rate_limited
    end.

Definition chunk_record (n : nat) : item :=
  <["id" := JString ("id-" +:+ pretty n)]>
    (<["text" := JString ("text " +:+ pretty n)]>
      (<["source" := JString "https://example.com/a"]>
        (<["title" := JString "example.com"]> ∅))).

Definition seven_records : list item := chunk_record <$> seq 1 7.

(** *** For the Collector *)

(** The part of [s] before the first [c]. *)
Fixpoint before_char (c : ascii) (s : string) : string :=
  match s with
  | EmptyString => EmptyString
  | String a s' => if Ascii.eqb a c then EmptyString else String a (before_char c s')
  end.

(** [urlparse(url).netloc] for URLs of the shape [scheme://host/path]. *)
Definition netloc (url : string) : exn + string :=
  match Str.split2 "/"%char "/"%char url EmptyString !! 1%nat with
  | Some rest => inr (before_char "/"%char rest)
  | None => inr EmptyString
  end.

(** Markup that [html.parser] rejects: a marked section whose keyword,
    [foo], is none of those the parser knows. *)
Definition rejected_markup : string := "<![foo bar".

Definition requests_get (url : string) : exn + Collector.response :=
  if String.eqb url "https://example.com/a"
  then inr (Collector.Response 200 rejected_markup)
  else if String.eqb url "https://example.org/b"
  then inr (Collector.Response 200 "hello world")
  else if String.eqb url "https://example.org/missing"
  then inr (Collector.Response 404 "Not Found")
  else inl (Exn RequestException "connection refused").

(** The text of the bodies that [requests_get] serves.  On
    [rejected_markup] the parser raises [AssertionError] (unknown status
    keyword in a marked section), which [BeautifulSoup] raises again as
    [ParserRejectedMarkup]; the message starts as below, what follows it
    differs between versions of the library.  A body without markup is its
    own text. *)
Definition soup_text (content : string) : exn + string :=
  if String.eqb content rejected_markup
  then inl (Exn (OtherError "ParserRejectedMarkup")
              "The markup you provided was rejected by the parser.")
  else inr content.

Definition get_transcript (video_id : string) : exn + list string :=
  if String.eqb video_id "8rlNdKywldQ" then inr ["hello"; "and welcome"]
  else inl (Exn (OtherError "TranscriptsDisabled") video_id).

(** A splitter that cuts at every space. *)
Fixpoint words_from (s cur : string) : list string :=
  match s with
  | EmptyString => [cur]
  | String a s' =>
      if Ascii.eqb a " "%char then cur :: words_from s' EmptyString
      else words_from s' (cur +:+ String a EmptyString)
  end.

Definition split_text (s : string) : list string := words_from s EmptyString.

Definition uuid4 (n : nat) : string := "uuid-" +:+ pretty n.

Definition fresh_world : Collector.world := Collector.World [] [] 0.

(** *** For the retrieval tool *)

Definition embed (texts : list string) : exn + list vector :=
  inr ((λ _, [1 # 2; 1 # 4]%Q) <$> texts).

Definition neighbor_one : Retrieval.neighbor :=
  Retrieval.Neighbor (1 # 10)
    [Retrieval.StringAttribute "text" "first text";
     Retrieval.StringAttribute "source" "https://example.com/a"].

Definition neighbor_two : Retrieval.neighbor :=
  Retrieval.Neighbor (2 # 10)
    [Retrieval.StringAttribute "source" "https://example.org/b";
     Retrieval.StringAttribute "text" "second text"].

(** A lookup service that answers with two result sets. *)
Definition two_result_sets : Retrieval.find_neighbors_response :=
  Retrieval.FindNeighborsResponse
    [Retrieval.ResultSet [neighbor_one]; Retrieval.ResultSet [neighbor_two]].

Definition find_two (_ : Retrieval.find_neighbors_request)
    : exn + Retrieval.find_neighbors_response :=
  inr two_result_sets.

(** A lookup service that finds nothing. *)
Definition find_nothing (_ : Retrieval.find_neighbors_request)
    : exn + Retrieval.find_neighbors_response :=
  inr (Retrieval.FindNeighborsResponse [Retrieval.ResultSet []]).

(** *** For the Indexer *)

Definition empty_project : Indexer.cloud :=
  Indexer.Cloud ∅ [] [] {["embedded_data.jsonl" := "{}"]} 1700000000 0 [].

Definition indexer_main : M Indexer.cloud (option string) :=
  Indexer.main "vertex-ai-co-pilot" "europe-west4" "embedded_data.jsonl"
    "vertex-ai-co-pilot-vector-search-data" "vector_search/embedded_chunks"
    "my_rag_index" "my_rag_endpoint" 768.

End Scenario.

(** ** The Embedder as a program, the [__main__] block of [app/embedding.py] *)

Module EmbedderMain.

Definition INGESTED_DATA_FILE : string := "ingested_data.jsonl".
Definition EMBEDDED_DATA_FILE : string := "embedded_data.jsonl".

Section WithService.

Variable embedding_service : nat → list json → exn + list vector.
Variable EMBEDDING_BATCH_SIZE : Z.

(** The files of the working directory, each a list of records, before and
    after the program; with the result comes the trace of the run.  When
    the input file is missing the program only prints.  Otherwise
    [generate_embeddings] opens the output file with mode ['w'], so the
    file ends up holding the lines written, also when the run raises. *)
Definition main (files : gmap string (list item))
    : (exn + unit) * (gmap string (list item) * list Embedder.event) :=
  match files !! INGESTED_DATA_FILE with
  | None => (inr tt, (files, []))
  | Some lines =>
      let r := Embedder.generate_embeddings embedding_service
                 EMBEDDING_BATCH_SIZE lines [] in
      (r.1, (<[EMBEDDED_DATA_FILE := Embedder.outfile r.2]> files, r.2))
  end.

End WithService.

(** The ids of a list of records. *)
Definition ids (l : list item) : list (option json) := (λ it : item, it !! "id") <$> l.

(** Every record has a ["text"]. *)
Definition all_have_text (l : list item) : Prop :=
  Forall (λ it : item, is_Some (it !! "text")) l.

(** The trace of a call that fails [k] times and is then answered. *)
Definition answered_call (k : nat) (texts : list json) : list Embedder.event :=
  concat ((λ j, [Embedder.GetEmbeddings texts; Embedder.Sleep (2 ^ Z.of_nat j)])
            <$> seq 0 k)
  ++ [Embedder.GetEmbeddings texts].

(** The seconds slept in a trace. *)
Definition total_sleep (t : list Embedder.event) : Z :=
  foldr Z.add 0%Z (Embedder.sleeps t).

End EmbedderMain.

(** ** More of the Collector's vocabulary *)

Module CollectorMore.

Section WithEnvironment.

Variable netloc : string → exn + string.
Variable requests_get : string → exn + Collector.response.
Variable soup_text : string → exn + string.

(** The exception [e] leaves [ingest_url] at [url]: [urlparse] raises it, or
    the URL is scraped as a web page and the scrape raises it and it is
    not a [RequestException]. *)
Definition raises_at (url : string) (e : exn) : Prop :=
  netloc url = inl e
  ∨ ∃ domain,
      netloc url = inr domain
      ∧ Str.contains "youtube.com" domain = false
      ∧ Str.contains "github.com" domain = false
      ∧ is_RequestException e = false
      ∧ (requests_get url = inl e
         ∨ ∃ resp, requests_get url = inr resp
                   ∧ soup_text (Collector.content resp) = inl e).

End WithEnvironment.

(** The character [c] occurs in [s]. *)
Fixpoint has_char (c : ascii) (s : string) : bool :=
  match s with
  | EmptyString => false
  | String a s' => Ascii.eqb a c || has_char c s'
  end.

End CollectorMore.

(** ** More of the Indexer's vocabulary *)

Module IndexerMore.

(** The content of the object [blob_name] of [bucket_name], if any. *)
Definition object_at (c : Indexer.cloud) (bucket_name blob_name : string)
    : option string :=
  Indexer.buckets c !! bucket_name ≫= λ blobs, blobs !! blob_name.

Definition is_upload (r : Indexer.request) : bool :=
  match r with Indexer.UploadFromFilename _ _ _ => true | _ => false end.

Definition is_deploy (r : Indexer.request) : bool :=
  match r with Indexer.DeployIndex _ _ _ _ _ _ => true | _ => false end.

End IndexerMore.

(** ** [GoogleSearchTool] of [app/agent.py] *)

Module GoogleSearch.

(** One hit of a search. *)
Record search_item := SearchItem {
  source_title : string;
  url : string;
  snippet : string
}.

(** The hits of one query; [results] is empty when there is none. *)
Record search_result := SearchResult { results : list search_item }.

(** [f"Source: {item.source_title}\nURL: {item.url}\nSnippet: {item.snippet}"] *)
Definition item_block (it : search_item) : string :=
  "Source: " +:+ source_title it +:+ Str.nl +:+ "URL: " +:+ url it +:+ Str.nl
  +:+ "Snippet: " +:+ snippet it.

(** [for item in result.results: output.append(...)] *)
Fixpoint append_items (items : list search_item) (output : list string)
    : list string :=
  match items with
  | [] => output
  | it :: items' => append_items items' (output ++ [item_block it])
  end.

(** [for result in results: if result.results: ...] *)
Fixpoint append_results (rs : list search_result) (output : list string)
    : list string :=
  match rs with
  | [] => output
  | r :: rs' =>
      match results r with
      | [] => append_results rs' output
      | _ => append_results rs' (append_items (results r) output)
      end
  end.

Section WithSearch.

(** [search(queries=queries)] of the [google_search] module *)
Variable search : list string → exn + list search_result.

Definition execute (queries : list string) : exn + string :=
  Retrieval.and_then (search queries) (λ rs,
  inr (Str.join (Str.nl +:+ Str.nl) (append_results rs []))).

End WithSearch.

End GoogleSearch.

(** ** [CodeAgent] of [app/code_agent.py] *)

Module CodeAgent.

(** How [python -c code] ends within the timeout, or that it does not, or
    that starting it fails. *)
Inductive process_outcome :=
| Exited (returncode : Z) (stdout stderr : string)
| TimedOut
| Failed (e : exn).

(** What [subprocess.run(..., check=True, timeout=15)] raises. *)
Inductive subprocess_error :=
| CalledProcessError (returncode : Z) (stdout stderr : string)
| TimeoutExpired
| OtherException (e : exn).

Section WithPython.

(** The interpreter: what running [code] does. *)
Variable python_c : string → process_outcome.

(** [subprocess.run(["python", "-c", code], capture_output=True, text=True,
    check=True, timeout=15)]; the state lists the code run so far. *)
Definition subprocess_run (code : string) (ran : list string)
    : (subprocess_error + string * string) * list string :=
  (match python_c code with
   | Exited rc out err =>
       if (rc =? 0)%Z then inr (out, err) else inl (CalledProcessError rc out err)
   | TimedOut => inl TimeoutExpired
   | Failed e => inl (OtherException e)
   end, ran ++ [code]).

Definition _run_python_code (code : string) (ran : list string)
    : string * list string :=
  match subprocess_run code ran with
  | (inr (out, _), ran') =>
      ("Execution successful." +:+ Str.nl +:+ "Output:" +:+ Str.nl +:+ out, ran')
  | (inl (CalledProcessError _ _ err), ran') =>
      ("Execution failed with an error." +:+ Str.nl +:+ "Error:" +:+ Str.nl +:+ err,
       ran')
  | (inl TimeoutExpired, ran') =>
      ("Execution timed out after 15 seconds. The code may be in an infinite loop.",
       ran')
  | (inl (OtherException e), ran') =>
      ("An unexpected error occurred during execution: " +:+ exn_msg e, ran')
  end.

(** [params] maps a parameter name to its string value. *)
Definition _execute_tool (tool_name : string) (params : gmap string string)
    : M (list string) string :=
  if String.eqb tool_name "code_execution_tool" then
    match params !! "code" with
    | None => ret "Error: The 'code' parameter is missing from the tool call."
    | Some code =>
        if String.eqb code ""
        then ret "Error: The 'code' parameter is missing from the tool call."
        else λ ran, let r := _run_python_code code ran in (inr r.1, r.2)
    end
  else raise (Exn ValueError ("Unknown tool: " +:+ tool_name)).

End WithPython.

End CodeAgent.

(** ** [AgentTool] of [app/tools.py] *)

Module AgentTool.

Section WithAgent.

(** [self._agent_instance.generate_content(query)] and the [text] of its
    response. *)
Variable generate_content : string → exn + string.

(** [run] on its keyword arguments; the state lists the queries sent to
    the sub-agent. *)
Definition run (kwargs : gmap string string) : M (list string) string :=
  let query := default "" (kwargs !! "query") in
  if String.eqb query "" then ret "Error: No query provided to the sub-agent."
  else λ sent, (generate_content query, sent ++ [query]).

End WithAgent.

End AgentTool.

(** ** Concrete inputs for the properties beyond the pipeline's contract *)

Module Cases.

(** A service that fails its first two requests and answers from the third. *)
Definition fails_twice : nat → list json → exn + list vector :=
  λ n texts,
    if (n <? 2)%nat then inl Scenario.rate_limited
    else inr ((λ _, [1 # 2; 1 # 4]%Q) <$> texts).

(** A service that answers every request with a single vector. *)
Definition one_vector : nat → list json → exn + list vector :=
  λ _ _, inr [[1 # 2; 1 # 4]%Q].

(** A record without a ["text"]. *)
Definition no_text_record : item :=
  <["id" := JString "id-0"]> (<["source" := JString "https://example.com/a"]> ∅).

Definition three_lines : list item :=
  [Scenario.chunk_record 1; no_text_record; Scenario.chunk_record 3].

Definition old_files : gmap string (list item) :=
  <["ingested_data.jsonl" := Scenario.seven_records]>
    (<["embedded_data.jsonl" := [Scenario.chunk_record 9]]> ∅).

(** A page without text. *)
Definition requests_get (url : string) : exn + Collector.response :=
  if String.eqb url "https://example.org/empty"
  then inr (Collector.Response 200 "")
  else Scenario.requests_get url.

(** [urlparse] rejecting a URL with an unclosed bracket. *)
Definition netloc (url : string) : exn + string :=
  if String.eqb url "http://[::1/"
  then inl (Exn ValueError "Invalid IPv6 URL")
  else Scenario.netloc url.

(** A project with an index of the configured name that is not deployed,
    and with the configured endpoint. *)
Definition undeployed_index : Indexer.index :=
  Indexer.Index "projects/p/locations/l/indexes/7" "my_rag_index"
    "gs://old-bucket/old.jsonl" 768 150 "DOT_PRODUCT_DISTANCE" [].

Definition existing_endpoint : Indexer.endpoint :=
  Indexer.Endpoint "projects/p/locations/l/indexEndpoints/3" "my_rag_endpoint" true.

Definition half_built_project : Indexer.cloud :=
  Indexer.Cloud ∅ [undeployed_index] [existing_endpoint]
    {["embedded_data.jsonl" := "{}"]} 1700000000 8 [].

(** A project whose bucket holds an older object at the destination. *)
Definition project_with_object : Indexer.cloud :=
  Indexer.Cloud
    {["bucket" := {["folder/embedded_data.jsonl" := "old data"]}]}
    [] [] {["embedded_data.jsonl" := "new data"]} 1700000000 0 [].

(** A neighbor without a ["source"]. *)
Definition neighbor_without_source : Retrieval.neighbor :=
  Retrieval.Neighbor (3 # 10) [Retrieval.StringAttribute "text" "third text"].

Definition find_incomplete (_ : Retrieval.find_neighbors_request)
    : exn + Retrieval.find_neighbors_response :=
  inr (Retrieval.FindNeighborsResponse
         [Retrieval.ResultSet [Scenario.neighbor_one; neighbor_without_source]]).

(** A search with hits for the first and the third query only. *)
Definition search (queries : list string) : exn + list GoogleSearch.search_result :=
  inr [GoogleSearch.SearchResult
         [GoogleSearch.SearchItem "A" "https://a.example" "first";
          GoogleSearch.SearchItem "B" "https://b.example" "second"];
       GoogleSearch.SearchResult [];
       GoogleSearch.SearchResult
         [GoogleSearch.SearchItem "C" "https://c.example" "third"]].

(** An interpreter: [exit(3)] fails, [while True: pass] hangs, all else
    prints [ok]. *)
Definition python_c (code : string) : CodeAgent.process_outcome :=
  if String.eqb code "exit(3)" then CodeAgent.Exited 3 "" "boom"
  else if String.eqb code "while True: pass" then CodeAgent.TimedOut
  else CodeAgent.Exited 0 "ok" "".

Definition generate_content (query : string) : exn + string :=
  inr ("answer to " +:+ query).

End Cases.

(** * Properties *)

(** ** The Embedder *)

Section EmbedderProperties.

Import Embedder.

Variable embedding_service : nat → list json → exn + list vector.
Variable EMBEDDING_BATCH_SIZE : Z.

Local Abbreviation get_embeddings_with_retry :=
  (get_embeddings_with_retry embedding_service).
Local Abbreviation retry_loop := (retry_loop embedding_service).
Local Abbreviation process_batch := (process_batch embedding_service).
Local Abbreviation read_lines :=
  (read_lines embedding_service EMBEDDING_BATCH_SIZE).
Local Abbreviation generate_embeddings :=
  (generate_embeddings embedding_service EMBEDDING_BATCH_SIZE).
Local Abbreviation answer_of := (answer_of embedding_service).

Ltac run := unfold mbind, M_bind, bind, try_except, raise, ret, emit, modify in *;
            simpl in *.

Lemma attempts_app t1 t2 : attempts (t1 ++ t2) = attempts t1 + attempts t2.
Proof. unfold attempts. by rewrite filter_app, length_app. Qed.

Lemma outfile_app t1 t2 : outfile (t1 ++ t2) = outfile t1 ++ outfile t2.
Proof. apply omap_app. Qed.

Lemma outfile_write_lines (l : list item) : outfile (WriteLine <$> l) = l.
Proof. induction l as [|x l IH]; simpl; [done | by f_equal]. Qed.

(** A call that fails [n] times in a row sleeps [delay], [2 delay], ... and
    then raises. *)
Lemma retry_loop_failing n delay texts t :
  (∀ k, k < n → returns (embedding_service (attempts t + k) texts) = false) →
  retry_loop n delay texts t =
    (inl (Exn Exception "Failed to get embeddings after multiple retries."),
     t ++ concat ((λ k, [GetEmbeddings texts; Sleep (delay * 2 ^ Z.of_nat k)])
                    <$> seq 0 n)).
Proof.
  revert delay t. induction n as [|n IH]; intros delay t Hfail.
  - simpl. run. by rewrite app_nil_r.
  - simpl. unfold try_except, get_embeddings.
    pose proof (Hfail 0 ltac:(lia)) as H0. rewrite Nat.add_0_r in H0.
    destruct (embedding_service (attempts t) texts) as [e|vs]; [|done].
    simpl. run. rewrite IH.
    + f_equal. rewrite <- !app_assoc. simpl. rewrite Z.mul_1_r. do 3 f_equal.
      rewrite <- fmap_S_seq, <- list_fmap_compose. f_equal.
      apply list_fmap_ext. intros _ k _. simpl. do 3 f_equal.
      rewrite Nat2Z.inj_succ, Z.pow_succ_r by lia. lia.
    + intros k Hk. rewrite !attempts_app.
      change (attempts [GetEmbeddings texts]) with 1.
      change (attempts [Sleep delay]) with 0.
      replace (attempts t + 1 + 0 + k) with (attempts t + S k) by lia.
      apply Hfail. lia.
Qed.

(** Whatever the service does, a call with retries writes nothing, and a
    value it returns is an answer of the service to [texts]. *)
Lemma retry_loop_run n delay texts t :
  ∃ tr, (retry_loop n delay texts t).2 = t ++ tr ∧ outfile tr = [] ∧
        ∀ vs, (retry_loop n delay texts t).1 = inr vs →
              ∃ k, embedding_service k texts = inr vs.
Proof.
  revert delay t. induction n as [|n IH]; intros delay t.
  - exists []. simpl. run. rewrite app_nil_r. by repeat split.
  - simpl. unfold try_except, get_embeddings.
    destruct (embedding_service (attempts t) texts) as [e|vs] eqn:E.
    + simpl. run.
      destruct (IH (delay * 2)%Z ((t ++ [GetEmbeddings texts]) ++ [Sleep delay]))
        as (tr & Htr & Hout & Hvs).
      exists ([GetEmbeddings texts; Sleep delay] ++ tr). repeat split.
      * rewrite Htr. by rewrite <- !app_assoc.
      * rewrite outfile_app, Hout. done.
      * done.
    + exists [GetEmbeddings texts]. simpl. repeat split.
      intros vs' [= <-]. eauto.
Qed.
(** The write loop pairs the [j']-th record with the [j']-th vector, and
    stops with [IndexError] where the vectors run out. *)
Lemma write_items_run (embeddings : list vector) j (batch : list item) t :
  write_items embeddings j batch t =
    (if bool_decide (length batch ≤ length (drop j embeddings))
     then inr tt else inl (Exn IndexError "list index out of range"),
     t ++ (WriteLine <$> zip_with with_embedding batch (drop j embeddings))).
Proof.
  revert j t. induction batch as [|it rest IH]; intros j t.
  - rewrite bool_decide_eq_true_2 by (simpl; lia).
    simpl. run. by rewrite app_nil_r.
  - cbn [write_items]. destruct (embeddings !! j) as [v|] eqn:E.
    + run. rewrite IH. rewrite (drop_S _ _ _ E). simpl.
      rewrite <- app_assoc. simpl. f_equal.
      apply lookup_lt_Some in E.
      rewrite !length_drop.
      destruct (bool_decide (length rest ≤ length embeddings - S j)) eqn:D1;
        [apply bool_decide_eq_true in D1 | apply bool_decide_eq_false in D1].
      * rewrite bool_decide_eq_true_2; [done | simpl; lia].
      * rewrite bool_decide_eq_false_2; [done | simpl; lia].
    + run. apply lookup_ge_None in E. rewrite drop_ge by lia. simpl.
      rewrite app_nil_r. done.
Qed.

Lemma comprehension_item_text (batch : list item) (t : list event) :
  comprehension item_text batch t =
    (match texts_of batch with
     | Some texts => inr texts
     | None => inl (Exn KeyError "'text'")
     end, t).
Proof.
  unfold texts_of. induction batch as [|it rest IH]; [done|].
  cbn [comprehension mapM]. unfold bind. unfold item_text at 1.
  destruct (it !! "text") as [x|]; [|done].
  unfold ret at 1. rewrite IH.
  destruct (mapM _ rest); done.
Qed.

(** One batch: a missing ["text"] key raises before anything is sent; a
    failed call is swallowed; a successful call is followed by the writes. *)
Lemma process_batch_run (batch : list item) t :
  process_batch batch t =
    match texts_of batch with
    | None => (inl (Exn KeyError "'text'"), t)
    | Some texts =>
        match get_embeddings_with_retry texts t with
        | (inl _, t1) => (inr tt, t1)
        | (inr vs, t1) =>
            (inr tt, t1 ++ (WriteLine <$> zip_with with_embedding batch vs))
        end
    end.
Proof.
  unfold process_batch, mbind, M_bind, bind.
  rewrite comprehension_item_text.
  destruct (texts_of batch) as [texts|]; [|done].
  unfold try_except, bind.
  destruct (get_embeddings_with_retry texts t) as [[e|vs] t1]; [done|].
  rewrite write_items_run. rewrite drop_0.
  by destruct (bool_decide _).
Qed.

Lemma bind_assoc {S A B C} (m : M S A) (f : A → M S B) (g : B → M S C) s :
  bind (bind m f) g s = bind m (λ a, bind (f a) g) s.
Proof. unfold bind. by destruct (m s) as [[e|a] s']. Qed.

Lemma bind_ret_tt {S} (m : M S unit) s : bind m (λ _, ret tt) s = m s.
Proof. unfold bind, ret. by destruct (m s) as [[e|[]] s']. Qed.

(** Records are collected while the batch is short of the batch size. *)
Lemma read_lines_fill (more rest batch : list item) t :
  (Z.of_nat (length (batch ++ more)) < EMBEDDING_BATCH_SIZE)%Z →
  read_lines (more ++ rest) batch t = read_lines rest (batch ++ more) t.
Proof.
  revert batch. induction more as [|it more IH]; intros batch Hlen.
  - by rewrite app_nil_r.
  - simpl. rewrite bool_decide_eq_false_2.
    + rewrite IH; rewrite <- app_assoc; [done|]. exact Hlen.
    + rewrite !length_app in *. simpl in *. lia.
Qed.

(** A batch of exactly the batch size is processed as soon as it is read. *)
Lemma read_lines_batch (batch rest : list item) t :
  length batch = effective_batch_size EMBEDDING_BATCH_SIZE →
  read_lines (batch ++ rest) [] t =
    bind (process_batch batch) (λ _, read_lines rest []) t.
Proof.
  unfold effective_batch_size. intros Hlen.
  destruct (decide (batch = [])) as [->|Hne]; [simpl in Hlen; lia|].
  destruct (exists_last Hne) as (front & last & ->).
  rewrite length_app in Hlen. simpl in Hlen.
  rewrite <- app_assoc.
  destruct (decide (1 ≤ EMBEDDING_BATCH_SIZE)%Z) as [HB|HB].
  - rewrite read_lines_fill by (simpl; lia).
    simpl. rewrite bool_decide_eq_true_2 by (rewrite length_app; simpl; lia).
    done.
  - assert (front = []) as -> by (destruct front; [done|simpl in Hlen; lia]).
    simpl. rewrite bool_decide_eq_true_2 by lia. done.
Qed.

Lemma generate_embeddings_batch (batch rest : list item) t :
  length batch = effective_batch_size EMBEDDING_BATCH_SIZE →
  generate_embeddings (batch ++ rest) t =
    bind (process_batch batch) (λ _, generate_embeddings rest) t.
Proof.
  intros Hlen. unfold Embedder.generate_embeddings, mbind, M_bind.
  unfold bind at 1. rewrite read_lines_batch by done.
  unfold bind. by destruct (process_batch batch t) as [[e|[]] t1].
Qed.

Lemma generate_embeddings_short (batch : list item) t :
  (Z.of_nat (length batch) < EMBEDDING_BATCH_SIZE)%Z →
  generate_embeddings batch t =
    match batch with [] => (inr tt, t) | _ => process_batch batch t end.
Proof.
  intros Hlen. unfold Embedder.generate_embeddings, mbind, M_bind, bind.
  rewrite <- (app_nil_r batch) at 1. rewrite read_lines_fill by done.
  simpl. by destruct batch.
Qed.

Lemma failed_call_eq texts :
  concat ((λ k, [GetEmbeddings texts; Sleep (1 * 2 ^ Z.of_nat k)]) <$> seq 0 5)
  = failed_call texts.
Proof. reflexivity. Qed.

Lemma failing_call_run (texts : list json) (t : list event) :
  exhausted embedding_service t texts →
  get_embeddings_with_retry texts t =
    (inl (Exn Exception "Failed to get embeddings after multiple retries."),
     t ++ failed_call texts).
Proof.
  intros Hfail. unfold Embedder.get_embeddings_with_retry.
  rewrite retry_loop_failing by exact Hfail. by rewrite failed_call_eq.
Qed.

(** C3.  When the embedding service fails the five requests a call makes,
    [get_embeddings_with_retry] sends exactly five requests, sleeping 1, 2,
    4, 8 and 16 seconds after them, and then raises; [process_batch]
    swallows the exception, so no record of the batch is written and the
    run does not crash; and a run whose first batch fails like this goes on
    with the records after that batch. *)
Theorem retry_exhaustion_abandons_batch (texts : list json) (t : list event)
    (Hfail : exhausted embedding_service t texts) :
  get_embeddings_with_retry texts t =
    (inl (Exn Exception "Failed to get embeddings after multiple retries."),
     t ++ failed_call texts)
  ∧ requests (failed_call texts) = replicate 5 texts
  ∧ sleeps (failed_call texts) = [1; 2; 4; 8; 16]%Z
  ∧ (∀ batch : list item, texts_of batch = Some texts →
       process_batch batch t = (inr tt, t ++ failed_call texts)
       ∧ outfile (t ++ failed_call texts) = outfile t
       ∧ ∀ rest : list item,
           (1 ≤ EMBEDDING_BATCH_SIZE)%Z →
           Z.of_nat (length batch) = EMBEDDING_BATCH_SIZE →
           generate_embeddings (batch ++ rest) t =
             generate_embeddings rest (t ++ failed_call texts)).
Proof.
  assert (Hcall : get_embeddings_with_retry texts t =
    (inl (Exn Exception "Failed to get embeddings after multiple retries."),
     t ++ failed_call texts)).
  { by apply failing_call_run. }
  split; [exact Hcall|]. split; [reflexivity|]. split; [reflexivity|].
  intros batch Htexts.
  assert (Hbatch : process_batch batch t = (inr tt, t ++ failed_call texts)).
  { rewrite process_batch_run, Htexts, Hcall. done. }
  split; [exact Hbatch|]. split.
  - rewrite outfile_app. simpl. by rewrite app_nil_r.
  - intros rest HB Hlen.
    rewrite generate_embeddings_batch by (unfold effective_batch_size; lia).
    unfold bind. by rewrite Hbatch.
Qed.

(** *** Batching *)

Lemma batches_from_fuel b fuel1 fuel2 (l : list item) :
  length l ≤ fuel1 → length l ≤ fuel2 → 0 < b →
  batches_from fuel1 b l = batches_from fuel2 b l.
Proof.
  revert fuel2 l. induction fuel1 as [|fuel1 IH]; intros fuel2 l H1 H2 Hb.
  - destruct l; [|simpl in H1; lia]. by destruct fuel2.
  - destruct l as [|x l]; [by destruct fuel2|].
    destruct fuel2 as [|fuel2]; [simpl in H2; lia|].
    cbn [batches_from]. f_equal.
    apply IH; [| |done]; rewrite length_drop; simpl in *; lia.
Qed.

Lemma consecutive_batches_nil b : consecutive_batches b [] = [].
Proof. reflexivity. Qed.

Lemma consecutive_batches_step b (l : list item) :
  0 < b → l ≠ [] →
  consecutive_batches b l = take b l :: consecutive_batches b (drop b l).
Proof.
  intros Hb Hne. unfold consecutive_batches.
  destruct l as [|x l]; [done|]. cbn [length batches_from]. f_equal.
  apply batches_from_fuel; [| |done]; rewrite length_drop; simpl; lia.
Qed.

Lemma consecutive_batches_ind b (Hb : 0 < b) (P : list item → Prop) :
  P [] →
  (∀ l, l ≠ [] → P (drop b l) → P l) →
  ∀ l, P l.
Proof.
  intros Hnil Hstep l.
  induction l as [l IH] using (induction_ltof1 _ (@length item)).
  destruct (decide (l = [])) as [->|Hne]; [done|].
  apply Hstep; [done|]. apply IH. unfold ltof. rewrite length_drop.
  destruct l; [done|simpl; lia].
Qed.

Lemma consecutive_batches_concat b (l : list item) :
  0 < b → concat (consecutive_batches b l) = l.
Proof.
  intros Hb. induction l as [|l Hne IH] using (consecutive_batches_ind b Hb).
  - done.
  - rewrite consecutive_batches_step by done. simpl.
    rewrite IH. apply take_drop.
Qed.

Lemma ceil_div_step n b : 0 < b → 0 < n → ceil_div n b = S (ceil_div (n - b) b).
Proof.
  intros Hb Hn. unfold ceil_div.
  destruct (decide (n ≤ b)) as [Hle|Hgt].
  - replace (n - b + b - 1) with (b - 1) by lia.
    rewrite (Nat.div_small (b - 1)) by lia.
    replace (n + b - 1) with ((n - 1) + 1 * b) by lia.
    rewrite Nat.div_add by lia. rewrite Nat.div_small by lia. done.
  - replace (n + b - 1) with ((n - b + b - 1) + 1 * b) by lia.
    rewrite Nat.div_add by lia. lia.
Qed.

Lemma consecutive_batches_length b (l : list item) :
  0 < b → length (consecutive_batches b l) = ceil_div (length l) b.
Proof.
  intros Hb. induction l as [|l Hne IH] using (consecutive_batches_ind b Hb).
  - unfold ceil_div. simpl. rewrite Nat.div_small; [done|lia].
  - rewrite consecutive_batches_step by done. simpl. rewrite IH.
    rewrite length_drop. symmetry. apply ceil_div_step; [done|].
    destruct l; [done|simpl; lia].
Qed.

Lemma consecutive_batches_lookup b (l : list item) i batch :
  0 < b → consecutive_batches b l !! i = Some batch →
  batch = take b (drop (i * b) l).
Proof.
  intros Hb. revert l. induction i as [|i IH]; intros l Hi.
  - destruct (decide (l = [])) as [->|Hne]; [done|].
    rewrite consecutive_batches_step in Hi by done. simpl in Hi.
    injection Hi as <-. by rewrite drop_0.
  - destruct (decide (l = [])) as [->|Hne]; [done|].
    rewrite consecutive_batches_step in Hi by done. simpl in Hi.
    apply IH in Hi. rewrite Hi, drop_drop. done.
Qed.

Lemma consecutive_batches_size b (l : list item) i batch :
  0 < b → consecutive_batches b l !! i = Some batch →
  length batch = (if decide (i < length l / b) then b else length l `mod` b)
  ∧ 0 < length batch.
Proof.
  intros Hb Hi.
  pose proof (lookup_lt_Some _ _ _ Hi) as Hlt.
  rewrite consecutive_batches_length in Hlt by done.
  rewrite (consecutive_batches_lookup _ _ _ _ Hb Hi).
  rewrite length_take, length_drop.
  pose proof (Nat.div_mod_eq (length l) b) as Hdm.
  pose proof (Nat.mod_upper_bound (length l) b ltac:(lia)) as Hmod.
  assert (Hceil : ceil_div (length l) b =
            length l / b + (if decide (length l `mod` b = 0) then 0 else 1)).
  { unfold ceil_div. case_decide as Hz.
    - replace (length l + b - 1) with ((b - 1) + (length l / b) * b) by lia.
      rewrite Nat.div_add by lia. rewrite Nat.div_small by lia. lia.
    - replace (length l + b - 1)
        with ((length l `mod` b - 1) + (length l / b + 1) * b) by lia.
      rewrite Nat.div_add by lia. rewrite Nat.div_small by lia. lia. }
  destruct (decide (i < length l / b)) as [Hfull|Hlast].
  - assert (S i * b ≤ length l) by nia. split; lia.
  - destruct (decide (length l `mod` b = 0)); [lia|].
    assert (i = length l / b) as -> by lia. split; lia.
Qed.

(** The run processes the consecutive batches one after the other. *)
Lemma generate_embeddings_batches (l : list item) t :
  generate_embeddings l t =
    for_each (consecutive_batches (effective_batch_size EMBEDDING_BATCH_SIZE) l)
             process_batch t.
Proof.
  set (b := effective_batch_size EMBEDDING_BATCH_SIZE).
  assert (Hb : 0 < b) by (subst b; unfold effective_batch_size; lia).
  revert t. induction l as [|l Hne IH] using (consecutive_batches_ind b Hb);
    intros t.
  - done.
  - rewrite consecutive_batches_step by done. cbn [for_each].
    assert (0 < length l) by (destruct l; [done|simpl; lia]).
    destruct (decide (length l < b)) as [Hshort|Hlong].
    + rewrite generate_embeddings_short
        by (subst b; unfold effective_batch_size in *; lia).
      rewrite drop_ge, take_ge by lia. rewrite consecutive_batches_nil.
      cbn [for_each]. rewrite bind_ret_tt. by destruct l.
    + rewrite <- (take_drop b l) at 1.
      rewrite generate_embeddings_batch by (rewrite length_take; subst b; lia).
      unfold bind. destruct (process_batch (take b l) t) as [[e|[]] t1]; [done|].
      apply IH.
Qed.

(** *** What the run writes *)

Lemma process_batch_output (batch : list item) t :
  ∃ vs, answer_of batch vs ∧
        outfile (process_batch batch t).2
        = outfile t ++ zip_with with_embedding batch vs.
Proof.
  rewrite process_batch_run.
  destruct (texts_of batch) as [texts|] eqn:Htexts.
  - destruct (retry_loop_run 5 1 texts t) as (tr & Htr & Hout & Hvs).
    fold (get_embeddings_with_retry texts) in Htr, Hvs.
    destruct (get_embeddings_with_retry texts t) as [[e|vs] t1];
      simpl in Htr; subst t1.
    + exists []. split; [by left|]. simpl.
      by rewrite outfile_app, Hout, zip_with_nil_r.
    + exists vs. split.
      * right. destruct (Hvs vs eq_refl) as [n Hn]. eauto.
      * simpl. by rewrite !outfile_app, Hout, outfile_write_lines, app_nil_r.
  - exists []. split; [by left|]. simpl.
    by rewrite zip_with_nil_r, app_nil_r.
Qed.

Lemma skipped_batches (bs : list (list item)) :
  Forall2 answer_of bs ((λ _, []) <$> bs)
  ∧ concat (zip_with (zip_with with_embedding) bs ((λ _, []) <$> bs)) = [].
Proof.
  induction bs as [|b bs [IH1 IH2]]; [by split|]. split.
  - constructor; [by left | done].
  - simpl. by rewrite zip_with_nil_r.
Qed.

Lemma for_each_output (bs : list (list item)) t :
  ∃ answers, Forall2 answer_of bs answers ∧
    outfile (for_each bs process_batch t).2
    = outfile t ++ concat (zip_with (zip_with with_embedding) bs answers).
Proof.
  revert t. induction bs as [|b bs IH]; intros t.
  - exists []. split; [constructor|]. simpl. by rewrite app_nil_r.
  - destruct (process_batch_output b t) as (vs & Hvs & Hout).
    cbn [for_each]. unfold bind.
    destruct (process_batch b t) as [[e|[]] t1]; simpl in Hout.
    + exists (vs :: ((λ _, []) <$> bs)).
      destruct (skipped_batches bs) as [H1 H2]. split; [by constructor|].
      simpl. by rewrite H2, app_nil_r.
    + destruct (IH t1) as (answers & Hans & Hrest).
      exists (vs :: answers). split; [by constructor|].
      simpl. by rewrite Hrest, Hout, app_assoc.
Qed.

(** The run writes, batch after batch, the records of each batch paired
    with the vectors answered for it. *)
Lemma run_output (lines : list item) t :
  ∃ answers,
    Forall2 answer_of
      (consecutive_batches (effective_batch_size EMBEDDING_BATCH_SIZE) lines)
      answers
    ∧ outfile (generate_embeddings lines t).2
      = outfile t ++
        concat (zip_with (zip_with with_embedding)
                  (consecutive_batches
                     (effective_batch_size EMBEDDING_BATCH_SIZE) lines)
                  answers).
Proof. rewrite generate_embeddings_batches. apply for_each_output. Qed.

Lemma zip_with_kept (batch : list item) (vs : list vector) :
  ∃ kept : list (item * vector),
    zip_with with_embedding batch vs = (λ p, with_embedding p.1 p.2) <$> kept
    ∧ kept.*1 `sublist_of` batch.
Proof.
  revert vs. induction batch as [|it batch IH]; intros vs.
  - by exists [].
  - destruct vs as [|v vs].
    + exists []. split; [done|]. apply sublist_nil_l.
    + destruct (IH vs) as (kept & Heq & Hsub).
      exists ((it, v) :: kept). split.
      * simpl. by rewrite Heq.
      * simpl. by apply sublist_skip.
Qed.

Lemma batches_kept (bs : list (list item)) (answers : list (list vector)) :
  ∃ kept : list (item * vector),
    concat (zip_with (zip_with with_embedding) bs answers)
    = (λ p, with_embedding p.1 p.2) <$> kept
    ∧ kept.*1 `sublist_of` concat bs.
Proof.
  revert answers. induction bs as [|b bs IH]; intros answers.
  - by exists [].
  - destruct answers as [|vs answers].
    + exists []. split; [done|]. apply sublist_nil_l.
    + destruct (IH answers) as (kept & Heq & Hsub).
      destruct (zip_with_kept b vs) as (kept0 & Heq0 & Hsub0).
      exists (kept0 ++ kept). split.
      * simpl. by rewrite Heq, Heq0, fmap_app.
      * simpl. rewrite fmap_app. by apply sublist_app.
Qed.

(** *** The requests of a run *)

Lemma requests_app t1 t2 : requests (t1 ++ t2) = requests t1 ++ requests t2.
Proof. apply omap_app. Qed.

Lemma requests_write_lines (l : list item) : requests (WriteLine <$> l) = [].
Proof. induction l as [|x l IH]; simpl; done. Qed.

(** A call with retries sends its texts at least once and at most [n]
    times. *)
Lemma retry_loop_requests n delay texts t :
  ∃ k, (0 < n → 1 ≤ k) ∧ k ≤ n
       ∧ requests (retry_loop n delay texts t).2
         = requests t ++ replicate k texts.
Proof.
  revert delay t. induction n as [|n IH]; intros delay t.
  - exists 0. simpl. unfold raise. simpl. rewrite app_nil_r.
    split; [lia|]. by split.
  - simpl. unfold try_except, get_embeddings.
    destruct (embedding_service (attempts t) texts) as [e|vs]; simpl.
    + run.
      destruct (IH (delay * 2)%Z ((t ++ [GetEmbeddings texts]) ++ [Sleep delay]))
        as (k & _ & Hk & Hreq).
      exists (S k). split; [lia|]. split; [lia|].
      rewrite Hreq, !requests_app. simpl. by rewrite app_nil_r, <- app_assoc.
    + exists 1. split; [lia|]. split; [lia|]. by rewrite requests_app.
Qed.

Lemma process_batch_requests (batch : list item) texts t :
  texts_of batch = Some texts →
  result (process_batch batch t) = inr tt
  ∧ ∃ k, 1 ≤ k ≤ 5
         ∧ requests (final (process_batch batch t))
           = requests t ++ replicate k texts.
Proof.
  intros Htexts. rewrite process_batch_run, Htexts.
  destruct (retry_loop_requests 5 1 texts t) as (k & Hk1 & Hk5 & Hreq).
  fold (get_embeddings_with_retry texts) in Hreq.
  destruct (get_embeddings_with_retry texts t) as [[e|vs] t1]; simpl in *.
  - split; [done|]. exists k. split; [lia|done].
  - split; [done|]. exists k. split; [lia|].
    unfold final. simpl.
    by rewrite requests_app, requests_write_lines, app_nil_r.
Qed.

(** When every record has a text, the run does not raise, and each batch
    has its texts requested between one and five times. *)
Lemma for_each_requests (bs : list (list item)) t :
  Forall (λ batch, is_Some (texts_of batch)) bs →
  result (for_each bs process_batch t) = inr tt
  ∧ ∃ counts : list nat,
      Forall2 (λ k (batch : list item), 1 ≤ k ≤ 5) counts bs
      ∧ requests (final (for_each bs process_batch t))
        = requests t ++
          concat (zip_with (λ k batch, replicate k (default [] (texts_of batch)))
                    counts bs).
Proof.
  intros Hbs. revert t. induction Hbs as [|b bs [texts Hb] _ IH]; intros t.
  - split; [done|]. exists []. split; [constructor|].
    unfold final. simpl. by rewrite app_nil_r.
  - destruct (process_batch_requests b texts t Hb) as (Hres & k & Hk & Hreq).
    cbn [for_each]. unfold bind. unfold result, final in *.
    destruct (process_batch b t) as [[e|[]] t1]; simpl in Hres, Hreq; [done|].
    destruct (IH t1) as (Hres' & counts & Hcounts & Hreq').
    split; [done|]. exists (k :: counts). split; [by constructor|].
    simpl. rewrite Hreq', Hreq, Hb. simpl. by rewrite app_assoc.
Qed.

Lemma batches_have_texts b (l : list item) :
  0 < b → Forall (λ it : item, is_Some (it !! "text")) l →
  Forall (λ batch, is_Some (texts_of batch)) (consecutive_batches b l).
Proof.
  intros Hb Hl. apply Forall_forall. intros batch Hin.
  apply list_elem_of_lookup in Hin as [i Hi].
  apply (consecutive_batches_lookup _ _ _ _ Hb) in Hi. subst batch.
  unfold texts_of. apply mapM_is_Some.
  by apply Forall_take, Forall_drop.
Qed.

(** C4.  With a batch size [B] of at least 1 and [N] records, the run is
    one [process_batch], hence one call of [get_embeddings_with_retry], per
    consecutive batch, in file order: there are [ceil(N/B)] batches, they
    concatenate to the input, each holds [B] records except a last one of
    [N mod B] records when that is not zero.  A batch whose call exhausts
    its retries adds nothing to the output; a batch whose call is answered
    with one vector per record adds every one of its records; so with a
    service that answers one vector per text, each batch is in the output
    whole or not at all.  When every record has a text the run does not
    raise, and the texts of each batch are requested between one and five
    times, the retries included. *)
Theorem batches_and_their_records (lines : list item) (t : list event)
    (HB : (1 ≤ EMBEDDING_BATCH_SIZE)%Z) :
  generate_embeddings lines t =
    for_each (consecutive_batches (Z.to_nat EMBEDDING_BATCH_SIZE) lines)
             process_batch t
  ∧ length (consecutive_batches (Z.to_nat EMBEDDING_BATCH_SIZE) lines)
    = ceil_div (length lines) (Z.to_nat EMBEDDING_BATCH_SIZE)
  ∧ concat (consecutive_batches (Z.to_nat EMBEDDING_BATCH_SIZE) lines) = lines
  ∧ (∀ i batch,
       consecutive_batches (Z.to_nat EMBEDDING_BATCH_SIZE) lines !! i
       = Some batch →
       batch = take (Z.to_nat EMBEDDING_BATCH_SIZE)
                    (drop (i * Z.to_nat EMBEDDING_BATCH_SIZE) lines)
       ∧ length batch =
           if decide (i < length lines / Z.to_nat EMBEDDING_BATCH_SIZE)
           then Z.to_nat EMBEDDING_BATCH_SIZE
           else length lines `mod` Z.to_nat EMBEDDING_BATCH_SIZE)
  ∧ (∀ (batch : list item) texts t0, texts_of batch = Some texts →
       (exhausted embedding_service t0 texts →
          result (process_batch batch t0) = inr tt
          ∧ outfile (final (process_batch batch t0)) = outfile t0)
       ∧ (∀ vs t1,
            get_embeddings_with_retry texts t0 = (inr vs, t1) →
            length vs = length batch →
            result (process_batch batch t0) = inr tt
            ∧ outfile (final (process_batch batch t0))
              = outfile t0 ++ zip_with with_embedding batch vs
            ∧ length (zip_with with_embedding batch vs) = length batch))
  ∧ ((∀ n texts vs, embedding_service n texts = inr vs →
        length vs = length texts) →
     ∃ answers : list (list vector),
       Forall2 (λ (batch : list item) vs, vs = [] ∨ length vs = length batch)
         (consecutive_batches (Z.to_nat EMBEDDING_BATCH_SIZE) lines) answers
       ∧ outfile (final (generate_embeddings lines t))
         = outfile t ++
           concat (zip_with (zip_with with_embedding)
                     (consecutive_batches (Z.to_nat EMBEDDING_BATCH_SIZE) lines)
                     answers))
  ∧ (Forall (λ it : item, is_Some (it !! "text")) lines →
     result (generate_embeddings lines t) = inr tt
     ∧ ∃ counts : list nat,
         Forall2 (λ k (batch : list item), 1 ≤ k ≤ 5) counts
           (consecutive_batches (Z.to_nat EMBEDDING_BATCH_SIZE) lines)
         ∧ requests (final (generate_embeddings lines t))
           = requests t ++
             concat (zip_with
                       (λ k batch, replicate k (default [] (texts_of batch)))
                       counts
                       (consecutive_batches (Z.to_nat EMBEDDING_BATCH_SIZE)
                          lines))).
Proof.
  assert (Heff : effective_batch_size EMBEDDING_BATCH_SIZE
                 = Z.to_nat EMBEDDING_BATCH_SIZE)
    by (unfold effective_batch_size; lia).
  assert (Hb : 0 < Z.to_nat EMBEDDING_BATCH_SIZE) by lia.
  split; [by rewrite generate_embeddings_batches, Heff|].
  split; [by apply consecutive_batches_length|].
  split; [by apply consecutive_batches_concat|].
  split.
  { intros i batch Hi. split.
    + by apply (consecutive_batches_lookup _ _ _ _ Hb Hi).
    + by apply (consecutive_batches_size _ _ _ _ Hb Hi). }
  split; [|split].
  3:{ intros Htexts. rewrite generate_embeddings_batches, Heff.
      apply for_each_requests. by apply batches_have_texts. }
  2:{ intros Hcontract.
      destruct (run_output lines t) as (answers & Hans & Hout).
      rewrite Heff in Hans, Hout. exists answers. split; [|exact Hout].
      eapply Forall2_impl; [exact Hans|].
      intros batch vs [->|(n & texts & Htexts & Hn)]; [by left|right].
      rewrite (Hcontract _ _ _ Hn). unfold texts_of in Htexts.
      symmetry. by eapply length_mapM. }
  - intros batch texts t0 Htexts. split.
    + intros Hfail.
      rewrite process_batch_run, Htexts, (failing_call_run texts t0 Hfail).
      split; [done|]. unfold final. simpl.
      rewrite outfile_app. simpl. by rewrite app_nil_r.
    + intros vs t1 Hcall Hlen.
      rewrite process_batch_run, Htexts, Hcall. simpl.
      destruct (retry_loop_run 5 1 texts t0) as (tr & Htr & Hout & _).
      fold (get_embeddings_with_retry texts) in Htr.
      rewrite Hcall in Htr. simpl in Htr. subst t1.
      split; [done|]. split.
      * by rewrite !outfile_app, Hout, outfile_write_lines, app_nil_r.
      * rewrite length_zip_with. lia.
Qed.

(** C5.  For every batch size, the run writes the consecutive batches in
    file order, each record of a batch carrying the vector at the same
    position of the answer to that batch; so the records written are, in
    order, a subsequence of the input records. *)
Theorem output_keeps_order_and_positions (lines : list item) (t : list event) :
  ∃ answers : list (list vector),
    Forall2 answer_of
      (consecutive_batches (effective_batch_size EMBEDDING_BATCH_SIZE) lines)
      answers
    ∧ concat (consecutive_batches
                (effective_batch_size EMBEDDING_BATCH_SIZE) lines) = lines
    ∧ outfile (final (generate_embeddings lines t))
      = outfile t ++
        concat (zip_with (zip_with with_embedding)
                  (consecutive_batches
                     (effective_batch_size EMBEDDING_BATCH_SIZE) lines)
                  answers)
    ∧ (∀ i (batch : list item) (vs : list vector) j rec,
         consecutive_batches (effective_batch_size EMBEDDING_BATCH_SIZE) lines
           !! i = Some batch →
         answers !! i = Some vs →
         zip_with with_embedding batch vs !! j = Some rec →
         ∃ it v, batch !! j = Some it ∧ vs !! j = Some v
                 ∧ rec = with_embedding it v)
    ∧ ∃ kept : list (item * vector),
        outfile (final (generate_embeddings lines t))
        = outfile t ++ ((λ p, with_embedding p.1 p.2) <$> kept)
        ∧ kept.*1 `sublist_of` lines.
Proof.
  assert (Hb : 0 < effective_batch_size EMBEDDING_BATCH_SIZE)
    by (unfold effective_batch_size; lia).
  destruct (run_output lines t) as (answers & Hans & Hout).
  exists answers. split; [done|].
  split; [by apply consecutive_batches_concat|].
  split; [done|]. split.
  - intros i batch vs j rec _ _ Hrec.
    apply lookup_zip_with_Some in Hrec as (it & v & -> & ? & ?). eauto.
  - destruct (batches_kept
      (consecutive_batches (effective_batch_size EMBEDDING_BATCH_SIZE) lines)
      answers) as (kept & Heq & Hsub).
    exists kept. split.
    + unfold final. by rewrite Hout, Heq.
    + by rewrite consecutive_batches_concat in Hsub.
Qed.

(** C9.  Every record the run writes is an input record with the key
    ["embedding"] set: ["id"], ["text"], ["source"], ["title"] and every
    other key keep their values, and no key but ["embedding"] is added. *)
Theorem written_records_only_gain_embedding (lines : list item) (t : list event) :
  ∃ new : list item,
    outfile (final (generate_embeddings lines t)) = outfile t ++ new
    ∧ Forall (λ rec : item,
        ∃ (it : item) (v : vector),
          it ∈ lines
          ∧ rec = <["embedding" := json_of_vector v]> it
          ∧ rec !! "id" = it !! "id"
          ∧ rec !! "text" = it !! "text"
          ∧ rec !! "source" = it !! "source"
          ∧ rec !! "title" = it !! "title"
          ∧ rec !! "embedding" = Some (json_of_vector v)
          ∧ (∀ k, k ≠ "embedding" → rec !! k = it !! k)
          ∧ dom rec = {["embedding"]} ∪ dom it) new.
Proof.
  destruct (run_output lines t) as (answers & _ & Hout).
  destruct (batches_kept
    (consecutive_batches (effective_batch_size EMBEDDING_BATCH_SIZE) lines)
    answers) as (kept & Heq & Hsub).
  rewrite consecutive_batches_concat in Hsub
    by (unfold effective_batch_size; lia).
  exists ((λ p, with_embedding p.1 p.2) <$> kept).
  split; [unfold final; by rewrite Hout, Heq|].
  apply Forall_fmap, Forall_forall. intros [it v] Hin. simpl.
  exists it, v. unfold with_embedding.
  split.
  { eapply elem_of_sublist; [|exact Hsub].
    apply list_elem_of_fmap. by exists (it, v). }
  split; [done|].
  repeat split; try (by rewrite lookup_insert_ne).
  - by rewrite lookup_insert_eq.
  - intros k Hk. by rewrite lookup_insert_ne.
  - by rewrite dom_insert_L.
Qed.

End EmbedderProperties.

(** *** The Embedder on concrete inputs *)

Lemma retry_exhaustion_witness :
  Embedder.exhausted Scenario.always_failing [] [JString "text 1"]
  ∧ Embedder.get_embeddings_with_retry Scenario.always_failing [JString "text 1"] []
    = (inl (Exn Exception "Failed to get embeddings after multiple retries."),
       Embedder.failed_call [JString "text 1"]).
Proof.
  split.
  - intros k _. reflexivity.
  - apply (retry_exhaustion_abandons_batch Scenario.always_failing 5
             [JString "text 1"] []).
    intros k _. reflexivity.
Defined.

Lemma batches_witness :
  (1 ≤ 5)%Z
  ∧ length (Embedder.consecutive_batches (Z.to_nat 5) Scenario.seven_records)
    = Embedder.ceil_div (length Scenario.seven_records) (Z.to_nat 5).
Proof.
  split; [lia|].
  apply (batches_and_their_records Scenario.first_request_only 5
           Scenario.seven_records []).
  lia.
Defined.

(** Seven records with a batch size of 5: batches of 5 and 2 records; when
    the second batch fails every attempt, the output is the first five
    records with their vectors. *)
Example seven_records_batch_size_five :
  length <$> Embedder.consecutive_batches 5 Scenario.seven_records = [5; 2]
  ∧ length <$> Embedder.requests
      (final (Embedder.generate_embeddings Scenario.first_request_only 5
                Scenario.seven_records []))
    = [5; 2; 2; 2; 2; 2]
  ∧ Embedder.outfile
      (final (Embedder.generate_embeddings Scenario.first_request_only 5
                Scenario.seven_records []))
    = (λ it, Embedder.with_embedding it [1 # 2; 1 # 4]%Q)
        <$> take 5 Scenario.seven_records
  ∧ result (Embedder.generate_embeddings Scenario.first_request_only 5
              Scenario.seven_records []) = inr tt.
Proof. vm_compute. repeat split. Qed.

(** ** The Collector *)

Section CollectorProperties.

Import Collector.

Variable netloc : string → exn + string.
Variable requests_get : string → exn + response.
Variable soup_text : string → exn + string.
Variable get_transcript : string → exn + list string.
Variable split_text : string → list string.
Variable uuid4 : nat → string.

Local Abbreviation get_youtube_transcript := (get_youtube_transcript get_transcript).
Local Abbreviation scrape_web_page := (scrape_web_page requests_get soup_text).
Local Abbreviation ingest_url :=
  (ingest_url netloc requests_get soup_text get_transcript split_text uuid4).
Local Abbreviation ingest_urls :=
  (ingest_urls netloc requests_get soup_text get_transcript split_text uuid4).
Local Abbreviation records_for := (records_for uuid4).
Local Abbreviation group_ok := (group_ok netloc).

Lemma quiet_print line : quiet (print line).
Proof. by intros w. Qed.

Lemma quiet_ask {A} (r : exn + A) : quiet (ask r).
Proof. by intros w. Qed.

Lemma quiet_ret {A} (a : A) : quiet (ret a : M world A).
Proof. by intros w. Qed.

Lemma quiet_raise {A} e : quiet (raise e : M world A).
Proof. by intros w. Qed.

Lemma quiet_bind {A B} (m : M world A) (k : A → M world B) :
  quiet m → (∀ a, quiet (k a)) → quiet (bind m k).
Proof.
  intros Hm Hk w. unfold bind. specialize (Hm w).
  destruct (m w) as [[e|a] w1]; [done|]. simpl in Hm.
  destruct (Hk a w1) as [H1 H2]. destruct Hm as [H3 H4]. split; congruence.
Qed.

Lemma quiet_try_except {A} (m : M world A) catches h :
  quiet m → (∀ e, quiet (h e)) → quiet (try_except m catches h).
Proof.
  intros Hm Hh w. unfold try_except. specialize (Hm w).
  destruct (m w) as [[e|a] w1]; [|done]. simpl in Hm.
  destruct (catches e); [|done].
  destruct (Hh e w1) as [H1 H2]. destruct Hm as [H3 H4]. split; congruence.
Qed.

Lemma quiet_get_youtube_transcript url : quiet (get_youtube_transcript url).
Proof.
  apply quiet_try_except.
  - apply quiet_bind; [by destruct (_ !! _)|]. intros v.
    apply quiet_bind; [apply quiet_ask|]. intros l. apply quiet_ret.
  - intros e. apply quiet_bind; [apply quiet_print|]. intros _. apply quiet_ret.
Qed.

Lemma quiet_scrape_web_page url : quiet (scrape_web_page url).
Proof.
  apply quiet_try_except.
  - apply quiet_bind; [apply quiet_ask|]. intros r.
    apply quiet_bind; [apply quiet_ask|]. intros x. apply quiet_ret.
  - intros e. apply quiet_bind; [apply quiet_print|]. intros _. apply quiet_ret.
Qed.

Lemma quiet_get_github_repo_content url : quiet (get_github_repo_content url).
Proof. apply quiet_bind; [apply quiet_print|]. intros _. apply quiet_ret. Qed.

(** The inner loop writes one record per chunk, each with the next id. *)
Lemma write_chunks_run url domain (chunks : list string) w :
  for_each chunks (λ chunk,
    id ← new_uuid uuid4;
    write_line (chunk_with_metadata id chunk url domain)) w
  = (inr tt,
     World (outfile w ++ records_for url domain (uuids_drawn w) chunks)
           (stdout w) (uuids_drawn w + length chunks)).
Proof.
  revert w. induction chunks as [|chunk chunks IH]; intros [out so n].
  - simpl. unfold ret, records_for. simpl.
    by rewrite app_nil_r, Nat.add_0_r.
  - cbn [for_each]. unfold bind at 1. unfold mbind, M_bind, bind, new_uuid,
      write_line, modify. simpl.
    rewrite IH. simpl. f_equal. f_equal.
    + unfold Collector.records_for. simpl. rewrite <- app_assoc. simpl.
      rewrite Nat.add_0_r. do 2 f_equal.
      apply imap_ext. intros i x _. simpl. do 2 f_equal. lia.
    + lia.
Qed.
Lemma length_records_for url domain first (chunks : list string) :
  length (records_for url domain first chunks) = length chunks.
Proof. apply length_imap. Qed.

(** What one URL adds to the file: nothing, or the records of its chunks. *)
Lemma ingest_url_run url w :
  ∃ recs,
    outfile (ingest_url url w).2 = outfile w ++ recs
    ∧ uuids_drawn (ingest_url url w).2 = uuids_drawn w + length recs
    ∧ (recs = [] ∨ ∃ domain chunks,
         netloc url = inr domain
         ∧ recs = records_for url domain (uuids_drawn w) chunks).
Proof.
  remember (ingest_url url w) as r eqn:Hr.
  unfold Collector.ingest_url, mbind, M_bind in Hr.
  unfold bind at 1 in Hr. unfold print at 1, modify in Hr.
  set (w0 := World (outfile w) (stdout w ++ ["Ingesting content from: " +:+ url])
                   (uuids_drawn w)) in Hr.
  unfold bind at 1 in Hr. unfold ask at 1 in Hr.
  destruct (netloc url) as [e|domain].
  { subst r. exists []. simpl. by rewrite app_nil_r, Nat.add_0_r; auto. }
  set (fetch := if Str.contains "youtube.com" domain then _ else _) in Hr.
  assert (Hq : quiet fetch).
  { subst fetch. destruct (Str.contains "youtube.com" domain);
      [apply quiet_get_youtube_transcript|].
    destruct (Str.contains "github.com" domain);
      [apply quiet_get_github_repo_content | apply quiet_scrape_web_page]. }
  unfold bind at 1 in Hr. destruct (Hq w0) as [Hout Hn].
  destruct (fetch w0) as [[e|content] w1]; simpl in Hout, Hn.
  { subst r. exists []. simpl. by rewrite Hout, Hn, app_nil_r, Nat.add_0_r; auto. }
  destruct (truthy content).
  - pose proof write_chunks_run as Hw. unfold mbind, M_bind in Hw.
    unfold bind at 1 in Hr. rewrite Hw in Hr.
    unfold print, modify in Hr. subst r. simpl.
    exists (records_for url domain (uuids_drawn w) (split_text (default "" content))).
    rewrite length_records_for, Hout, Hn. repeat split. right. eauto.
  - subst r. exists []. simpl. by rewrite Hout, Hn, app_nil_r, Nat.add_0_r; auto.
Qed.

Lemma records_for_cons url domain first chunk (chunks : list string) :
  records_for url domain first (chunk :: chunks)
  = chunk_with_metadata (uuid4 first) chunk url domain
    :: records_for url domain (S first) chunks.
Proof.
  unfold Collector.records_for. rewrite imap_cons, Nat.add_0_r. f_equal.
  apply imap_ext. intros i x _. simpl. do 2 f_equal. lia.
Qed.

Lemma records_for_ids url domain first (chunks : list string) :
  field "id" <$> records_for url domain first chunks
  = (λ k, Some (JString (uuid4 k))) <$> seq first (length chunks).
Proof.
  revert first. induction chunks as [|chunk chunks IH]; intros first; [done|].
  rewrite records_for_cons. simpl. by rewrite IH.
Qed.

Lemma records_for_made_for url domain first (chunks : list string) :
  Forall (made_for url domain) (records_for url domain first chunks).
Proof.
  revert first. induction chunks as [|chunk chunks IH]; intros first.
  - constructor.
  - rewrite records_for_cons. constructor; [|apply IH].
    exists chunk, (uuid4 first). by repeat split.
Qed.

(** The loop over the URLs: one group of records per URL, in list order,
    up to the URL at which an exception escapes, if any. *)
Lemma ingest_loop_run urls w :
  ∃ groups : list (string * list item),
    groups.*1 `prefix_of` urls
    ∧ (returns (for_each urls ingest_url w).1 = true → groups.*1 = urls)
    ∧ outfile (for_each urls ingest_url w).2 = outfile w ++ concat groups.*2
    ∧ uuids_drawn (for_each urls ingest_url w).2
      = uuids_drawn w + length (concat groups.*2)
    ∧ field "id" <$> concat groups.*2
      = (λ k, Some (JString (uuid4 k)))
          <$> seq (uuids_drawn w) (length (concat groups.*2))
    ∧ Forall group_ok groups.
Proof.
  revert w. induction urls as [|url urls IH]; intros w.
  - exists []. simpl. rewrite app_nil_r, Nat.add_0_r. by repeat split.
  - destruct (ingest_url_run url w) as (recs & Hout & Hn & Hrecs).
    assert (Hids : field "id" <$> recs
              = (λ k, Some (JString (uuid4 k))) <$> seq (uuids_drawn w) (length recs)).
    { destruct Hrecs as [->|(d & chunks & _ & ->)]; [done|].
      by rewrite records_for_ids, length_records_for. }
    assert (Hok : group_ok (url, recs)).
    { destruct Hrecs as [->|(d & chunks & Hd & ->)]; [by left|].
      right. exists d. split; [done|]. apply records_for_made_for. }
    cbn [for_each]. unfold bind.
    destruct (ingest_url url w) as [[e|[]] w1]; simpl in Hout, Hn.
    + exists [(url, recs)]. rewrite !fmap_cons. cbn [concat fst snd fmap list_fmap].
      rewrite !app_nil_r.
      split; [by apply prefix_cons, prefix_nil|]. split; [done|].
      repeat split; [done..|]. by constructor.
    + destruct (IH w1) as (groups & Hpre & Hall & Hout' & Hn' & Hids' & Hok').
      exists ((url, recs) :: groups). rewrite !fmap_cons. cbn [concat fst snd].
      split; [by apply prefix_cons|].
      split; [intros Hr; f_equal; by apply Hall|].
      split; [by rewrite Hout', Hout, app_assoc|].
      split; [rewrite Hn', Hn, length_app; lia|].
      split; [|by constructor].
      rewrite fmap_app, length_app, seq_app, fmap_app, Hids, Hids'.
      by rewrite Hn.
Qed.

Lemma ingest_urls_unfold urls w :
  ingest_urls urls w =
    match for_each urls ingest_url (World [] (stdout w) (uuids_drawn w)) with
    | (inl e, w1) => (inl e, w1)
    | (inr _, w1) =>
        (inr tt,
         World (outfile w1)
               (stdout w1 ++ [Str.nl +:+
                  "Successfully ingested content and saved to ingested_data.jsonl."])
               (uuids_drawn w1))
    end.
Proof.
  unfold Collector.ingest_urls, mbind, M_bind, bind, open_w, print, modify.
  by destruct (for_each urls _ _) as [[e|[]] w1].
Qed.

Lemma id_of_draw_inj :
  (∀ i j, uuid4 i = uuid4 j → i = j) →
  Inj (=) (=) (λ k, Some (JString (uuid4 k))).
Proof. intros Huuid i j [= H]. by apply Huuid. Qed.

(** C8.  A run truncates the output file, so its contents afterwards do not
    depend on what it held before; it handles the URLs in list order, one
    group of records per URL; every record of the group of [u] was made for
    [u], with [u] as source and the domain of [u] as title; the ids in the
    file are successive draws of [uuid4], hence pairwise distinct when
    [uuid4] never repeats a value. *)
Theorem collector_run_records (urls : list string) (w : world)
    (Huuid : ∀ i j, uuid4 i = uuid4 j → i = j) :
  ∃ groups : list (string * list item),
    groups.*1 `prefix_of` urls
    ∧ (returns (result (ingest_urls urls w)) = true → groups.*1 = urls)
    ∧ outfile (final (ingest_urls urls w)) = concat groups.*2
    ∧ (∀ old, outfile (final (ingest_urls urls
                                (World old (stdout w) (uuids_drawn w))))
             = concat groups.*2)
    ∧ Forall group_ok groups
    ∧ field "id" <$> outfile (final (ingest_urls urls w))
      = (λ k, Some (JString (uuid4 k)))
          <$> seq (uuids_drawn w) (length (outfile (final (ingest_urls urls w))))
    ∧ NoDup (field "id" <$> outfile (final (ingest_urls urls w))).
Proof.
  destruct (ingest_loop_run urls (World [] (stdout w) (uuids_drawn w)))
    as (groups & Hpre & Hall & Hout & Hn & Hids & Hok).
  simpl in Hout, Hids.
  assert (Hfile : ∀ old,
    outfile (final (ingest_urls urls (World old (stdout w) (uuids_drawn w))))
    = concat groups.*2).
  { intros old. rewrite ingest_urls_unfold. simpl.
    by destruct (for_each urls _ _) as [[e|[]] w1]. }
  assert (Hw : outfile (final (ingest_urls urls w)) = concat groups.*2).
  { destruct w as [old so n]. apply Hfile. }
  exists groups. split; [done|]. split.
  { intros Hret. apply Hall. rewrite ingest_urls_unfold in Hret.
    by destruct (for_each urls _ _) as [[e|[]] w1]. }
  split; [done|]. split; [done|]. split; [done|].
  rewrite Hw. split; [done|].
  rewrite Hids.
  apply (@NoDup_fmap_2 _ _ _ (id_of_draw_inj Huuid)). apply NoDup_seq.
Qed.

Lemma get_youtube_transcript_never_raises url w :
  returns (get_youtube_transcript url w).1 = true.
Proof.
  unfold Collector.get_youtube_transcript, try_except.
  match goal with
  | |- context [match ?m w with _ => _ end] => by destruct (m w) as [[e|a] w1]
  end.
Qed.

Lemma scrape_web_page_catches url w e :
  requests_get url = inl e → is_RequestException e = true →
  (scrape_web_page url w).1 = inr None.
Proof.
  intros Hget He.
  unfold Collector.scrape_web_page, try_except, mbind, M_bind, bind, ask.
  rewrite Hget. simpl. by rewrite He.
Qed.

(** An exception that is not a [RequestException] leaves [scrape_web_page]. *)
Lemma scrape_web_page_propagates url w e :
  requests_get url = inl e
  ∨ (∃ resp, requests_get url = inr resp ∧ soup_text (content resp) = inl e) →
  is_RequestException e = false →
  (scrape_web_page url w).1 = inl e.
Proof.
  intros Hraise He.
  unfold Collector.scrape_web_page, try_except, mbind, M_bind, bind, ask.
  destruct Hraise as [Hget|(resp & Hget & Hsoup)]; rewrite Hget; simpl.
  - by rewrite He.
  - rewrite Hsoup. simpl. by rewrite He.
Qed.

Lemma scrape_web_page_content url resp text w :
  requests_get url = inr resp → soup_text (content resp) = inr text →
  scrape_web_page url w = (inr (Some text), w).
Proof.
  intros Hget Hsoup.
  unfold Collector.scrape_web_page, try_except, mbind, M_bind, bind, ask.
  rewrite Hget. simpl. by rewrite Hsoup.
Qed.

(** C10.  [scrape_web_page] never looks at the status of the response: for
    a request that completes, whatever its status code, the text of the
    body is the content; and when that text is not empty and the URL is
    neither a video nor a repository, its chunks are written to the file
    like those of any page. *)
Theorem error_pages_are_ingested (url : string) (resp : response)
    (text : string) (w : world)
    (Hget : requests_get url = inr resp)
    (Hsoup : soup_text (content resp) = inr text) :
  scrape_web_page url w = (inr (Some text), w)
  ∧ (∀ code : Z,
       Collector.scrape_web_page (λ _, inr (Response code (content resp)))
         soup_text url w = (inr (Some text), w))
  ∧ (∀ domain,
       netloc url = inr domain →
       Str.contains "youtube.com" domain = false →
       Str.contains "github.com" domain = false →
       text ≠ "" →
       result (ingest_url url w) = inr tt
       ∧ outfile (final (ingest_url url w))
         = outfile w ++ records_for url domain (uuids_drawn w) (split_text text)).
Proof.
  split; [by apply (scrape_web_page_content url resp)|].
  split.
  { intros code.
    unfold Collector.scrape_web_page, try_except, mbind, M_bind, bind, ask.
    simpl. by rewrite Hsoup. }
  intros domain Hdom Hyt Hgh Htext.
  assert (Hrun : ∃ so, ingest_url url w =
    (inr tt,
     World (outfile w ++ records_for url domain (uuids_drawn w) (split_text text))
           so (uuids_drawn w + length (split_text text)))).
  { pose proof write_chunks_run as Hw. unfold mbind, M_bind in Hw.
    unfold Collector.ingest_url, mbind, M_bind.
    unfold bind at 1. unfold print at 1, modify.
    unfold bind at 1. unfold ask at 1. rewrite Hdom, Hyt, Hgh.
    unfold bind at 1.
    rewrite (scrape_web_page_content url resp text _ Hget Hsoup).
    assert (truthy (Some text) = true) as ->.
    { simpl. apply negb_true_iff, String.eqb_neq. done. }
    unfold bind at 1. rewrite Hw. unfold print, modify. simpl. eauto. }
  destruct Hrun as [so ->]. done.
Qed.

End CollectorProperties.

(** *** The Collector on concrete inputs *)

Lemma scenario_uuid4_inj i j : Scenario.uuid4 i = Scenario.uuid4 j → i = j.
Proof.
  unfold Scenario.uuid4. simpl. intros [= H]. by apply (inj pretty).
Qed.

Lemma collector_run_witness :
  (∀ i j, Scenario.uuid4 i = Scenario.uuid4 j → i = j)
  ∧ ∃ groups : list (string * list item),
      groups.*1 `prefix_of` ["https://example.org/b"; "https://example.org/missing"]
      ∧ Collector.outfile
          (final (Collector.ingest_urls Scenario.netloc Scenario.requests_get
                    Scenario.soup_text Scenario.get_transcript
                    Scenario.split_text Scenario.uuid4
                    ["https://example.org/b"; "https://example.org/missing"]
                    Scenario.fresh_world))
        = concat groups.*2.
Proof.
  split; [exact scenario_uuid4_inj|].
  destruct (collector_run_records Scenario.netloc Scenario.requests_get
              Scenario.soup_text Scenario.get_transcript Scenario.split_text
              Scenario.uuid4
              ["https://example.org/b"; "https://example.org/missing"]
              Scenario.fresh_world scenario_uuid4_inj)
    as (groups & Hpre & _ & Hout & _).
  exists groups. by split.
Defined.

Lemma error_pages_witness :
  Scenario.requests_get "https://example.org/missing"
  = inr (Collector.Response 404 "Not Found")
  ∧ Scenario.soup_text "Not Found" = inr "Not Found"
  ∧ Collector.scrape_web_page Scenario.requests_get Scenario.soup_text
      "https://example.org/missing" Scenario.fresh_world
    = (inr (Some "Not Found"), Scenario.fresh_world).
Proof.
  split; [reflexivity|]. split; [reflexivity|].
  apply (error_pages_are_ingested Scenario.netloc Scenario.requests_get
           Scenario.soup_text Scenario.get_transcript Scenario.split_text
           Scenario.uuid4 "https://example.org/missing"
           (Collector.Response 404 "Not Found") "Not Found"
           Scenario.fresh_world); reflexivity.
Defined.

(** A page answered with status 404 ends up in the corpus. *)
Example not_found_page_is_written :
  Collector.field "text" <$>
    Collector.outfile
      (final (Collector.ingest_urls Scenario.netloc Scenario.requests_get
                Scenario.soup_text Scenario.get_transcript Scenario.split_text
                Scenario.uuid4 ["https://example.org/missing"]
                Scenario.fresh_world))
  = [Some (JString "Not"); Some (JString "Found")].
Proof. vm_compute. reflexivity. Qed.

(** A missing transcript and an unreachable page are skipped, and the run
    goes on to the URLs after them. *)
Example failed_fetches_are_skipped :
  result (Collector.ingest_urls Scenario.netloc Scenario.requests_get
            Scenario.soup_text Scenario.get_transcript Scenario.split_text
            Scenario.uuid4
            ["https://www.youtube.com/watch?v=missing";
             "https://unreachable.example/";
             "https://github.com/GoogleCloudPlatform/agent-starter-pack";
             "https://www.youtube.com/watch?v=8rlNdKywldQ";
             "https://example.org/b"]
            Scenario.fresh_world) = inr tt
  ∧ Collector.field "text" <$> Collector.outfile
      (final (Collector.ingest_urls Scenario.netloc Scenario.requests_get
                Scenario.soup_text Scenario.get_transcript Scenario.split_text
                Scenario.uuid4
                ["https://www.youtube.com/watch?v=missing";
                 "https://unreachable.example/";
                 "https://github.com/GoogleCloudPlatform/agent-starter-pack";
                 "https://www.youtube.com/watch?v=8rlNdKywldQ";
                 "https://example.org/b"]
                Scenario.fresh_world))
    = [Some (JString "hello"); Some (JString "and"); Some (JString "welcome");
       Some (JString "hello"); Some (JString "world")]
  ∧ Collector.field "title" <$> Collector.outfile
      (final (Collector.ingest_urls Scenario.netloc Scenario.requests_get
                Scenario.soup_text Scenario.get_transcript Scenario.split_text
                Scenario.uuid4
                ["https://www.youtube.com/watch?v=missing";
                 "https://unreachable.example/";
                 "https://github.com/GoogleCloudPlatform/agent-starter-pack";
                 "https://www.youtube.com/watch?v=8rlNdKywldQ";
                 "https://example.org/b"]
                Scenario.fresh_world))
    = [Some (JString "www.youtube.com"); Some (JString "www.youtube.com");
       Some (JString "www.youtube.com");
       Some (JString "example.org"); Some (JString "example.org")].
Proof. vm_compute. repeat split. Qed.

(** C2, at a page whose markup the parser rejects.  The first URL is
    fetched with status 200 and the body [<![foo bar]; parsing it raises
    [ParserRejectedMarkup], which is not a [RequestException]:
    [scrape_web_page] does not catch it, the run stops with it, and the
    second URL, which alone yields two records, is never fetched. *)
Theorem rejected_markup_aborts_the_run :
  Scenario.requests_get "https://example.com/a"
  = inr (Collector.Response 200 "<![foo bar")
  ∧ (∃ e,
       result (Collector.ingest_urls Scenario.netloc Scenario.requests_get
                 Scenario.soup_text Scenario.get_transcript Scenario.split_text
                 Scenario.uuid4
                 ["https://example.com/a"; "https://example.org/b"]
                 Scenario.fresh_world)
       = inl e
       ∧ exn_cls e = OtherError "ParserRejectedMarkup"
       ∧ is_RequestException e = false)
  ∧ Collector.outfile
      (final (Collector.ingest_urls Scenario.netloc Scenario.requests_get
                Scenario.soup_text Scenario.get_transcript Scenario.split_text
                Scenario.uuid4
                ["https://example.com/a"; "https://example.org/b"]
                Scenario.fresh_world))
    = []
  ∧ Collector.stdout
      (final (Collector.ingest_urls Scenario.netloc Scenario.requests_get
                Scenario.soup_text Scenario.get_transcript Scenario.split_text
                Scenario.uuid4
                ["https://example.com/a"; "https://example.org/b"]
                Scenario.fresh_world))
    = ["Ingesting content from: https://example.com/a"]
  ∧ length (Collector.outfile
      (final (Collector.ingest_urls Scenario.netloc Scenario.requests_get
                Scenario.soup_text Scenario.get_transcript Scenario.split_text
                Scenario.uuid4 ["https://example.org/b"]
                Scenario.fresh_world)))
    = 2.
Proof.
  split; [reflexivity|]. split.
  - exists (Exn (OtherError "ParserRejectedMarkup")
              "The markup you provided was rejected by the parser.").
    vm_compute. repeat split.
  - vm_compute. repeat split.
Qed.

(** ** The Indexer *)

Section IndexerProperties.

Import Indexer.

Variables PROJECT_ID LOCATION : string.
Variables EMBEDDED_DATA_FILE GCS_BUCKET_NAME GCS_UPLOAD_FOLDER : string.
Variables INDEX_DISPLAY_NAME ENDPOINT_DISPLAY_NAME : string.
Variable EMBEDDING_DIMENSIONS : Z.

Local Abbreviation upload_data_to_gcs := (upload_data_to_gcs LOCATION).
Local Abbreviation create_and_deploy_index :=
  (create_and_deploy_index PROJECT_ID LOCATION INDEX_DISPLAY_NAME
     ENDPOINT_DISPLAY_NAME EMBEDDING_DIMENSIONS).
Local Abbreviation main :=
  (main PROJECT_ID LOCATION EMBEDDED_DATA_FILE GCS_BUCKET_NAME GCS_UPLOAD_FOLDER
     INDEX_DISPLAY_NAME ENDPOINT_DISPLAY_NAME EMBEDDING_DIMENSIONS).
Local Abbreviation deploy_to_endpoint :=
  (deploy_to_endpoint PROJECT_ID LOCATION INDEX_DISPLAY_NAME ENDPOINT_DISPLAY_NAME).
Local Abbreviation converged := (converged INDEX_DISPLAY_NAME).

Ltac run_cloud :=
  unfold mbind, M_bind, bind, try_except, raise, ret, get, modify; simpl.

(** An index found by its display name and already deployed: the endpoint
    of its first deployment is returned and nothing is requested. *)
Lemma deployed_index_short_circuit gcs_uri c ep :
  converged c ep →
  create_and_deploy_index gcs_uri c = (inr ep, c).
Proof.
  intros (ix & d & ds & Hfind & Hdep & <-).
  unfold Indexer.create_and_deploy_index. run_cloud.
  rewrite Hfind. simpl. by rewrite Hdep.
Qed.

(** An object that exists at the destination is not uploaded again. *)
Lemma existing_object_not_uploaded source_file bucket_name destination_folder c :
  uploaded c source_file bucket_name destination_folder →
  upload_data_to_gcs source_file bucket_name destination_folder c
  = (inr ("gs://" +:+ bucket_name +:+ "/" +:+
          Str.path_join destination_folder (Str.basename source_file)), c).
Proof.
  intros (blobs & data & Hb & Hblob).
  unfold Indexer.upload_data_to_gcs, get_bucket, blob_exists. run_cloud.
  rewrite Hb. simpl. rewrite Hb. simpl. rewrite Hblob. simpl. done.
Qed.
Lemma find_index_add_deployment name n d (l : list index) :
  find_index name (add_deployment n d <$> l)
  = add_deployment n d <$> find_index name l.
Proof.
  unfold find_index. induction l as [|ix l IH]; [done|].
  cbn [fmap list_fmap List.find].
  assert (index_display_name (add_deployment n d ix) = index_display_name ix) as ->.
  { unfold add_deployment. by destruct (String.eqb _ _). }
  destruct (String.eqb (index_display_name ix) name); [done|]. exact IH.
Qed.

Lemma find_index_new name (l : list index) ix :
  find_index name l = None → index_display_name ix = name →
  find_index name (l ++ [ix]) = Some ix.
Proof.
  unfold find_index. intros Hnone Hname.
  induction l as [|ix0 l IH]; simpl in *.
  - by rewrite Hname, String.eqb_refl.
  - destruct (String.eqb (index_display_name ix0) name); [done|]. by apply IH.
Qed.

Lemma count_requests_log p r c :
  count_requests p (log r c) = count_requests p c + (if p r then 1 else 0).
Proof.
  unfold count_requests, log. simpl. rewrite filter_app, length_app.
  f_equal. rewrite filter_cons, filter_nil. by destruct (p r).
Qed.

(** Deploying the index found under the display name, which has no
    deployment yet, makes the project converged on that endpoint. *)
Lemma deploy_found_index_run (ep : endpoint) (ix : index) deployed_id c :
  find_index INDEX_DISPLAY_NAME (indexes c) = Some ix →
  deployed_indexes ix = [] →
  converged
    (deploy_index ep ix deployed_id "n1-standard-16" 1 2 c).2
    (endpoint_resource_name ep).
Proof.
  intros Hfind Hdep. unfold Indexer.converged, deploy_index, modify.
  cbn [snd indexes log set_indexes].
  exists (add_deployment (index_resource_name ix)
            (DeployedIndexRef (endpoint_resource_name ep) deployed_id) ix),
         (DeployedIndexRef (endpoint_resource_name ep) deployed_id), [].
  rewrite find_index_add_deployment, Hfind. split; [done|].
  unfold add_deployment. rewrite String.eqb_refl. simpl. by rewrite Hdep.
Qed.

(** Steps 4 to 6 on an index found under the display name and not yet
    deployed. *)
Lemma deploy_to_endpoint_run (ix : index) c :
  find_index INDEX_DISPLAY_NAME (indexes c) = Some ix →
  deployed_indexes ix = [] →
  ∃ ep,
    result (deploy_to_endpoint ix c) = inr ep
    ∧ converged (final (deploy_to_endpoint ix c)) ep
    ∧ buckets (final (deploy_to_endpoint ix c)) = buckets c
    ∧ local_files (final (deploy_to_endpoint ix c)) = local_files c
    ∧ count_requests is_create_index (final (deploy_to_endpoint ix c))
      = count_requests is_create_index c
    ∧ (find_endpoint ENDPOINT_DISPLAY_NAME (endpoints c) = None →
       count_requests is_create_endpoint (final (deploy_to_endpoint ix c))
       = S (count_requests is_create_endpoint c)).
Proof.
  intros Hfind Hdep.
  unfold Indexer.deploy_to_endpoint, create_endpoint. run_cloud.
  destruct (find_endpoint ENDPOINT_DISPLAY_NAME (endpoints c)) as [ep|] eqn:Hep;
    simpl.
  - exists (endpoint_resource_name ep). split; [done|]. split.
    { by apply (deploy_found_index_run ep ix _ c). }
    split; [done|]. split; [done|]. split; [|done].
    rewrite count_requests_log. simpl. unfold count_requests. simpl. lia.
  - set (ep := Endpoint _ ENDPOINT_DISPLAY_NAME true).
    set (c1 := log (CreateEndpoint ENDPOINT_DISPLAY_NAME)
                 (bump_id (set_endpoints (endpoints c ++ [ep]) c))).
    exists (endpoint_resource_name ep). split; [done|]. split.
    { by apply (deploy_found_index_run ep ix _ c1). }
    split; [done|]. split; [done|]. split; [|intros _].
    + rewrite count_requests_log. subst c1. simpl.
      unfold count_requests. simpl. rewrite filter_app, length_app. simpl. lia.
    + rewrite count_requests_log. subst c1. simpl.
      unfold count_requests. simpl. rewrite filter_app, length_app. simpl. lia.
Qed.

(** Whatever the project looks like, [create_and_deploy_index] ends with
    the index deployed, on the endpoint it returns. *)
Lemma create_and_deploy_index_run gcs_uri c :
  ∃ ep,
    result (create_and_deploy_index gcs_uri c) = inr ep
    ∧ converged (final (create_and_deploy_index gcs_uri c)) ep
    ∧ buckets (final (create_and_deploy_index gcs_uri c)) = buckets c
    ∧ local_files (final (create_and_deploy_index gcs_uri c)) = local_files c
    ∧ (find_index INDEX_DISPLAY_NAME (indexes c) = None →
       find_endpoint ENDPOINT_DISPLAY_NAME (endpoints c) = None →
       count_requests is_create_index (final (create_and_deploy_index gcs_uri c))
       = S (count_requests is_create_index c)
       ∧ count_requests is_create_endpoint
           (final (create_and_deploy_index gcs_uri c))
         = S (count_requests is_create_endpoint c)).
Proof.
  destruct (find_index INDEX_DISPLAY_NAME (indexes c)) as [ix|] eqn:Hfind.
  - destruct (deployed_indexes ix) as [|d ds] eqn:Hdep.
    + assert (Hrun : create_and_deploy_index gcs_uri c = deploy_to_endpoint ix c).
      { unfold Indexer.create_and_deploy_index. run_cloud.
        rewrite Hfind. simpl. by rewrite Hdep. }
      rewrite Hrun.
      destruct (deploy_to_endpoint_run ix c Hfind Hdep)
        as (ep & Hres & Hconv & Hb & Hl & _).
      exists ep. by repeat split.
    + exists (index_endpoint d).
      rewrite (deployed_index_short_circuit gcs_uri c (index_endpoint d)).
      * split; [done|]. split; [|done]. by exists ix, d, ds.
      * by exists ix, d, ds.
  - set (ix := Index (resource_name PROJECT_ID LOCATION "indexes" (next_id c))
                 INDEX_DISPLAY_NAME gcs_uri EMBEDDING_DIMENSIONS 150
                 "DOT_PRODUCT_DISTANCE" []).
    set (c1 := log (CreateTreeAhIndex INDEX_DISPLAY_NAME gcs_uri)
                 (bump_id (set_indexes (indexes c ++ [ix]) c))).
    assert (Hrun : create_and_deploy_index gcs_uri c = deploy_to_endpoint ix c1).
    { unfold Indexer.create_and_deploy_index, create_tree_ah_index. run_cloud.
      by rewrite Hfind. }
    rewrite Hrun.
    assert (Hfind1 : find_index INDEX_DISPLAY_NAME (indexes c1) = Some ix).
    { subst c1. simpl. by apply find_index_new. }
    destruct (deploy_to_endpoint_run ix c1 Hfind1 eq_refl)
      as (ep & Hres & Hconv & Hb & Hl & Hci & Hce).
    exists ep. split; [done|]. split; [done|]. split; [done|]. split; [done|].
    intros _ Hep. split.
    + rewrite Hci. subst c1. rewrite count_requests_log. simpl.
      unfold count_requests. simpl. lia.
    + rewrite (Hce Hep). subst c1. rewrite count_requests_log. simpl.
      unfold count_requests. simpl. lia.
Qed.

(** With the input file at hand, [upload_data_to_gcs] ends with the object
    in place and leaves the ANN service alone. *)
Lemma upload_data_to_gcs_run source_file bucket_name destination_folder c data :
  local_files c !! source_file = Some data →
  result (upload_data_to_gcs source_file bucket_name destination_folder c)
  = inr ("gs://" +:+ bucket_name +:+ "/" +:+
         Str.path_join destination_folder (Str.basename source_file))
  ∧ uploaded
      (final (upload_data_to_gcs source_file bucket_name destination_folder c))
      source_file bucket_name destination_folder
  ∧ indexes (final (upload_data_to_gcs source_file bucket_name destination_folder c))
    = indexes c
  ∧ endpoints (final (upload_data_to_gcs source_file bucket_name destination_folder c))
    = endpoints c
  ∧ local_files (final (upload_data_to_gcs source_file bucket_name destination_folder c))
    = local_files c
  ∧ count_requests is_create_index
      (final (upload_data_to_gcs source_file bucket_name destination_folder c))
    = count_requests is_create_index c
  ∧ count_requests is_create_endpoint
      (final (upload_data_to_gcs source_file bucket_name destination_folder c))
    = count_requests is_create_endpoint c.
Proof.
  intros Hfile.
  destruct (buckets c !! bucket_name) as [blobs|] eqn:Hb.
  - destruct (blobs !! Str.path_join destination_folder (Str.basename source_file))
      as [old|] eqn:Hblob.
    + rewrite existing_object_not_uploaded by (by exists blobs, old).
      split; [done|]. split; [by exists blobs, old|]. done.
    + unfold Indexer.upload_data_to_gcs, get_bucket, blob_exists,
        upload_from_filename. run_cloud.
      rewrite Hb. simpl. rewrite Hb. simpl. rewrite Hblob. simpl.
      rewrite Hfile. simpl. split; [done|]. split.
      { eexists _, data. simpl. rewrite lookup_insert_eq. split; [done|].
        by rewrite lookup_insert_eq. }
      split; [done|]. split; [done|]. split; [done|].
      unfold count_requests. simpl. rewrite !filter_app, !length_app. simpl.
      split; lia.
  - unfold Indexer.upload_data_to_gcs, get_bucket, create_bucket, blob_exists,
      upload_from_filename. run_cloud.
    rewrite Hb. simpl. rewrite Hb. simpl. rewrite lookup_insert_eq. simpl.
    rewrite lookup_empty. simpl. rewrite Hfile. simpl. split; [done|]. split.
    { eexists _, data. simpl. rewrite lookup_insert_eq. split; [done|].
      by rewrite lookup_insert_eq. }
    split; [done|]. split; [done|]. split; [done|].
    unfold count_requests. simpl. rewrite !filter_app, !length_app. simpl.
    split; lia.
Qed.

(** Where the display name identifies an index, that index is the one
    found. *)
Lemma find_index_unique name (l : list index) ix :
  ix ∈ l → index_display_name ix = name →
  (∀ ix', ix' ∈ l → index_display_name ix' = name → ix' = ix) →
  find_index name l = Some ix.
Proof.
  intros Hin Hname Huniq. unfold find_index.
  destruct (List.find _ l) as [ix0|] eqn:Hfind.
  - apply find_some in Hfind as [Hin0 Heq].
    apply String.eqb_eq in Heq. f_equal.
    apply Huniq; [by apply list_elem_of_In|done].
  - apply list_elem_of_In in Hin.
    pose proof (find_none _ _ Hfind ix Hin) as Hne.
    apply String.eqb_neq in Hne. done.
Qed.

Lemma main_run c data :
  local_files c !! EMBEDDED_DATA_FILE = Some data →
  main c =
    match create_and_deploy_index
            ("gs://" +:+ GCS_BUCKET_NAME +:+ "/" +:+
             Str.path_join GCS_UPLOAD_FOLDER (Str.basename EMBEDDED_DATA_FILE))
            (final (upload_data_to_gcs EMBEDDED_DATA_FILE GCS_BUCKET_NAME
                      GCS_UPLOAD_FOLDER c)) with
    | (inr ep, c2) => (inr (Some ep), c2)
    | (inl e, c2) => (inl e, c2)
    end.
Proof.
  intros Hfile.
  destruct (upload_data_to_gcs_run EMBEDDED_DATA_FILE GCS_BUCKET_NAME
              GCS_UPLOAD_FOLDER c data Hfile) as (Hres & _).
  unfold Indexer.main. unfold mbind at 1, M_bind, bind at 1, get.
  rewrite Hfile. unfold mbind at 1. unfold bind at 1.
  unfold result, final in *.
  destruct (upload_data_to_gcs _ _ _ c) as [r1 c1]. simpl in Hres. subst r1.
  unfold mbind, bind, ret. simpl.
  by destruct (create_and_deploy_index _ c1) as [[e|ep] c2].
Qed.

(** C6.  An index found under [INDEX_DISPLAY_NAME] and already deployed
    makes [create_and_deploy_index] return the endpoint of that deployment
    and request nothing; an object that exists at the destination makes
    [upload_data_to_gcs] upload nothing; so a second run of the Indexer on
    the same input file, at any later time, returns the endpoint of the
    first run and leaves the project exactly as the first run left it.
    Starting without an index and an endpoint of the configured names, the
    two runs together create exactly one index and one endpoint. *)
Theorem indexer_second_run_changes_nothing (c : cloud) (data : string) (t2 : Z)
    (Hfile : local_files c !! EMBEDDED_DATA_FILE = Some data) :
  (∀ gcs_uri c0 ep, converged c0 ep →
     create_and_deploy_index gcs_uri c0 = (inr ep, c0))
  ∧ (∀ gcs_uri c0 ix d ds,
       ix ∈ indexes c0 → index_display_name ix = INDEX_DISPLAY_NAME →
       (∀ ix', ix' ∈ indexes c0 → index_display_name ix' = INDEX_DISPLAY_NAME →
               ix' = ix) →
       deployed_indexes ix = d :: ds →
       create_and_deploy_index gcs_uri c0 = (inr (index_endpoint d), c0))
  ∧ (∀ c0, uploaded c0 EMBEDDED_DATA_FILE GCS_BUCKET_NAME GCS_UPLOAD_FOLDER →
       upload_data_to_gcs EMBEDDED_DATA_FILE GCS_BUCKET_NAME GCS_UPLOAD_FOLDER c0
       = (inr ("gs://" +:+ GCS_BUCKET_NAME +:+ "/" +:+
               Str.path_join GCS_UPLOAD_FOLDER (Str.basename EMBEDDED_DATA_FILE)),
          c0))
  ∧ ∃ ep,
      result (main c) = inr (Some ep)
      ∧ main (set_clock t2 (final (main c)))
        = (inr (Some ep), set_clock t2 (final (main c)))
      ∧ api_log (final (main (set_clock t2 (final (main c)))))
        = api_log (final (main c))
      ∧ (find_index INDEX_DISPLAY_NAME (indexes c) = None →
         find_endpoint ENDPOINT_DISPLAY_NAME (endpoints c) = None →
         count_requests is_create_index
           (final (main (set_clock t2 (final (main c)))))
         = S (count_requests is_create_index c)
         ∧ count_requests is_create_endpoint
             (final (main (set_clock t2 (final (main c)))))
           = S (count_requests is_create_endpoint c)).
Proof.
  split; [intros gcs_uri c0 ep; apply deployed_index_short_circuit|].
  split.
  { intros gcs_uri c0 ix d ds Hin Hname Huniq Hdep.
    apply deployed_index_short_circuit. exists ix, d, ds.
    split; [by apply find_index_unique|done]. }
  split; [intros c0; apply existing_object_not_uploaded|].
  set (uri := "gs://" +:+ GCS_BUCKET_NAME +:+ "/" +:+
              Str.path_join GCS_UPLOAD_FOLDER (Str.basename EMBEDDED_DATA_FILE)).
  destruct (upload_data_to_gcs_run EMBEDDED_DATA_FILE GCS_BUCKET_NAME
              GCS_UPLOAD_FOLDER c data Hfile)
    as (_ & Hup & Hix1 & Hep1 & Hlf1 & Hci1 & Hce1).
  set (c1 := final (upload_data_to_gcs EMBEDDED_DATA_FILE GCS_BUCKET_NAME
                      GCS_UPLOAD_FOLDER c)) in *.
  destruct (create_and_deploy_index_run uri c1)
    as (ep & Hres & Hconv & Hb2 & Hlf2 & Hcount).
  assert (Hrun1 : main c = (inr (Some ep), final (create_and_deploy_index uri c1))).
  { rewrite (main_run c data Hfile). fold uri c1.
    unfold result, final in *.
    destruct (create_and_deploy_index uri c1) as [r2 c2]. simpl in *. by subst r2. }
  set (c2 := final (create_and_deploy_index uri c1)) in *.
  assert (Hrun2 : main (set_clock t2 c2) = (inr (Some ep), set_clock t2 c2)).
  { rewrite (main_run (set_clock t2 c2) data)
      by (simpl; by rewrite Hlf2, Hlf1).
    rewrite existing_object_not_uploaded.
    - fold uri. unfold final. simpl.
      by rewrite (deployed_index_short_circuit uri (set_clock t2 c2) ep).
    - destruct Hup as (blobs & d & Hbl & Hd). exists blobs, d.
      simpl. by rewrite Hb2. }
  exists ep. rewrite Hrun1. unfold result, final. simpl.
  split; [done|]. rewrite Hrun2. simpl.
  split; [done|]. split; [done|].
  intros Hni Hne.
  rewrite <- Hix1 in Hni. rewrite <- Hep1 in Hne.
  destruct (Hcount Hni Hne) as [H1 H2].
  unfold count_requests in *. simpl. fold c2. split; congruence.
Qed.

End IndexerProperties.

(** *** The Indexer on a concrete project *)

Lemma indexer_second_run_witness :
  Indexer.local_files Scenario.empty_project !! "embedded_data.jsonl" = Some "{}"
  ∧ ∃ ep,
      result (Scenario.indexer_main Scenario.empty_project) = inr (Some ep)
      ∧ Scenario.indexer_main
          (Indexer.set_clock 1700003600
             (final (Scenario.indexer_main Scenario.empty_project)))
        = (inr (Some ep),
           Indexer.set_clock 1700003600
             (final (Scenario.indexer_main Scenario.empty_project))).
Proof.
  split; [reflexivity|].
  destruct (indexer_second_run_changes_nothing "vertex-ai-co-pilot"
              "europe-west4" "embedded_data.jsonl"
              "vertex-ai-co-pilot-vector-search-data"
              "vector_search/embedded_chunks" "my_rag_index" "my_rag_endpoint"
              768 Scenario.empty_project "{}" 1700003600 eq_refl)
    as (_ & _ & _ & ep & Hres & Hrun & _).
  exists ep. by split.
Defined.

(** Two runs on an empty project: one bucket, one upload, one index, one
    endpoint and one deployment are requested, all by the first run. *)
Example two_runs_on_an_empty_project :
  Indexer.api_log
    (final (Scenario.indexer_main
              (Indexer.set_clock 1700003600
                 (final (Scenario.indexer_main Scenario.empty_project)))))
  = [Indexer.CreateBucket "vertex-ai-co-pilot-vector-search-data" "europe-west4";
     Indexer.UploadFromFilename "vertex-ai-co-pilot-vector-search-data"
       "vector_search/embedded_chunks/embedded_data.jsonl" "embedded_data.jsonl";
     Indexer.CreateTreeAhIndex "my_rag_index"
       "gs://vertex-ai-co-pilot-vector-search-data/vector_search/embedded_chunks/embedded_data.jsonl";
     Indexer.CreateEndpoint "my_rag_endpoint";
     Indexer.DeployIndex
       "projects/vertex-ai-co-pilot/locations/europe-west4/indexEndpoints/1"
       "projects/vertex-ai-co-pilot/locations/europe-west4/indexes/0"
       "deployed_myragindex_1700000000" "n1-standard-16" 1 2]
  ∧ result (Scenario.indexer_main
              (Indexer.set_clock 1700003600
                 (final (Scenario.indexer_main Scenario.empty_project))))
    = inr (Some "projects/vertex-ai-co-pilot/locations/europe-west4/indexEndpoints/1").
Proof. vm_compute. split; reflexivity. Qed.

(** ** The retrieval tool *)

Section RetrievalProperties.

Import Retrieval.

Variable get_embeddings : list string → exn + list vector.
Variable find_neighbors : find_neighbors_request → exn + find_neighbors_response.
Variables endpoint_name DEPLOYED_INDEX_ID : string.

Local Abbreviation execute :=
  (execute get_embeddings find_neighbors endpoint_name DEPLOYED_INDEX_ID).

Lemma next_string_value_attribute key nb :
  next_string_value key (metadata_strings nb)
  = match attribute key nb with
    | Some s => inr s
    | None => inl (Exn StopIteration "")
    end.
Proof.
  unfold next_string_value, attribute.
  by destruct (List.find _ (metadata_strings nb)).
Qed.

Lemma neighbor_block_of nb :
  has_attributes nb → neighbor_block nb = inr (block_of nb).
Proof.
  intros [[text Htext] [source Hsource]].
  unfold neighbor_block, block_of, and_then.
  rewrite !next_string_value_attribute, Htext, Hsource. done.
Qed.

Lemma collect_blocks (nbs : list neighbor) :
  Forall has_attributes nbs →
  collect neighbor_block nbs = inr (block_of <$> nbs).
Proof.
  induction 1 as [|nb nbs Hnb _ IH]; [done|].
  simpl. rewrite (neighbor_block_of nb Hnb). simpl. by rewrite IH.
Qed.

(** C1, as the code has it.  When both services answer and the neighbors
    of the first result set carry their ["text"] and ["source"], [execute]
    returns the blocks of the neighbors of the first result set, joined by
    an empty line, and the sentinel when there are none.  The first result
    set holds all neighbors when the response has at most one result set. *)
Theorem execute_renders_first_result_set (query_text : string) (v : vector)
    (rest : list vector) (response : find_neighbors_response)
    (Hembed : get_embeddings [query_text] = inr (v :: rest))
    (Hfind : find_neighbors (request_for endpoint_name DEPLOYED_INDEX_ID v)
             = inr response)
    (Hattrs : Forall has_attributes (first_neighbors response)) :
  execute query_text = inr (rendering (first_neighbors response))
  ∧ (first_neighbors response = [] → execute query_text = inr no_results)
  ∧ (length (nearest_neighbors response) ≤ 1 →
     first_neighbors response = all_neighbors response).
Proof.
  assert (Hrun : execute query_text = inr (rendering (first_neighbors response))).
  { unfold Retrieval.execute, and_then. rewrite Hembed.
    unfold request_for in Hfind. rewrite Hfind.
    unfold first_neighbors in *.
    destruct (nearest_neighbors response) as [|first others]; [done|].
    rewrite (collect_blocks _ Hattrs).
    by destruct (neighbors first). }
  split; [done|]. split.
  - intros Hnone. by rewrite Hrun, Hnone.
  - unfold first_neighbors, all_neighbors.
    destruct (nearest_neighbors response) as [|first [|second others]];
      simpl; intros Hlen; [done| |lia].
    by rewrite app_nil_r.
Qed.

End RetrievalProperties.

(** *** The retrieval tool on concrete responses *)

Lemma scenario_neighbors_have_attributes :
  Forall Retrieval.has_attributes (Retrieval.all_neighbors Scenario.two_result_sets).
Proof. repeat constructor; by eexists. Qed.

Lemma execute_first_result_set_witness :
  Scenario.embed ["query"] = inr [[1 # 2; 1 # 4]%Q]
  ∧ Scenario.find_two (Retrieval.request_for "endpoint" "deployed" [1 # 2; 1 # 4]%Q)
    = inr Scenario.two_result_sets
  ∧ Forall Retrieval.has_attributes
      (Retrieval.first_neighbors Scenario.two_result_sets)
  ∧ Retrieval.execute Scenario.embed Scenario.find_two "endpoint" "deployed" "query"
    = inr (Retrieval.rendering (Retrieval.first_neighbors Scenario.two_result_sets)).
Proof.
  assert (Hattrs : Forall Retrieval.has_attributes
                     (Retrieval.first_neighbors Scenario.two_result_sets))
    by (repeat constructor; by eexists).
  split; [reflexivity|]. split; [reflexivity|]. split; [exact Hattrs|].
  apply (execute_renders_first_result_set Scenario.embed Scenario.find_two
           "endpoint" "deployed" "query" [1 # 2; 1 # 4]%Q []
           Scenario.two_result_sets eq_refl eq_refl Hattrs).
Defined.

(** C1 as stated fails: with two result sets in the response, the output
    is not the blocks of all neighbors of all result sets. *)
Lemma execute_ignores_later_result_sets :
  ¬ (∀ (get_embeddings : list string → exn + list vector)
       (find_neighbors : Retrieval.find_neighbors_request
                         → exn + Retrieval.find_neighbors_response)
       (endpoint_name deployed_index_id query_text : string)
       (v : vector) (rest : list vector)
       (response : Retrieval.find_neighbors_response),
       get_embeddings [query_text] = inr (v :: rest) →
       find_neighbors (Retrieval.request_for endpoint_name deployed_index_id v)
       = inr response →
       Forall Retrieval.has_attributes (Retrieval.all_neighbors response) →
       Retrieval.execute get_embeddings find_neighbors endpoint_name
         deployed_index_id query_text
       = inr (Retrieval.rendering (Retrieval.all_neighbors response))).
Proof.
  intros Hclaim.
  specialize (Hclaim Scenario.embed Scenario.find_two "endpoint" "deployed"
                "query" [1 # 2; 1 # 4]%Q [] Scenario.two_result_sets
                eq_refl eq_refl scenario_neighbors_have_attributes).
  vm_compute in Hclaim. discriminate Hclaim.
Qed.

(** The output on the response with two result sets, and on an empty one. *)
Example execute_on_two_result_sets :
  Retrieval.execute Scenario.embed Scenario.find_two "endpoint" "deployed" "query"
  = inr ("Source: https://example.com/a" +:+ Str.nl +:+ "Content: first text")
  ∧ Retrieval.execute Scenario.embed Scenario.find_nothing "endpoint" "deployed"
      "query"
    = inr "No relevant documents found in the knowledge base.".
Proof. vm_compute. split; reflexivity. Qed.

(** * Further properties *)

(** ** The Embedder: retries, short answers, records without text *)

Section EmbedderMore.

Import Embedder EmbedderMain.

Variable embedding_service : nat → list json → exn + list vector.
Variable EMBEDDING_BATCH_SIZE : Z.

Local Abbreviation get_embeddings_with_retry :=
  (get_embeddings_with_retry embedding_service).
Local Abbreviation retry_loop := (retry_loop embedding_service).
Local Abbreviation process_batch := (process_batch embedding_service).
Local Abbreviation generate_embeddings :=
  (generate_embeddings embedding_service EMBEDDING_BATCH_SIZE).

Lemma attempts_snoc_call t texts :
  attempts (t ++ [GetEmbeddings texts]) = S (attempts t).
Proof. rewrite attempts_app. change (attempts [GetEmbeddings texts]) with 1. lia. Qed.

Lemma attempts_snoc_sleep t d : attempts (t ++ [Sleep d]) = attempts t.
Proof. rewrite attempts_app. change (attempts [Sleep d]) with 0. lia. Qed.

(** A call that is answered at its [k]-th retry. *)
Lemma retry_loop_answered k n delay texts t vs :
  k < n →
  (∀ j, j < k → returns (embedding_service (attempts t + j) texts) = false) →
  embedding_service (attempts t + k) texts = inr vs →
  retry_loop n delay texts t =
    (inr vs,
     t ++ concat ((λ j, [GetEmbeddings texts; Sleep (delay * 2 ^ Z.of_nat j)])
                    <$> seq 0 k)
       ++ [GetEmbeddings texts]).
Proof.
  revert n delay t. induction k as [|k IH]; intros n delay t Hk Hfail Hok.
  - destruct n as [|n]; [lia|]. simpl. unfold try_except, get_embeddings.
    rewrite Nat.add_0_r in Hok. by rewrite Hok.
  - destruct n as [|n]; [lia|]. simpl. unfold try_except, get_embeddings.
    pose proof (Hfail 0 ltac:(lia)) as H0. rewrite Nat.add_0_r in H0.
    destruct (embedding_service (attempts t) texts) as [e|vs0]; [|done].
    simpl. unfold mbind, M_bind, bind, emit, modify. simpl.
    rewrite (IH n (delay * 2)%Z _ ltac:(lia)).
    + f_equal. rewrite <- !app_assoc. simpl. rewrite Z.mul_1_r. do 3 f_equal.
      rewrite <- fmap_S_seq, <- list_fmap_compose. f_equal. f_equal.
      apply list_fmap_ext. intros _ j _. simpl. do 3 f_equal.
      rewrite Nat2Z.inj_succ, Z.pow_succ_r by lia. lia.
    + intros j Hj. rewrite attempts_snoc_sleep, attempts_snoc_call.
      replace (S (attempts t) + j) with (attempts t + S j) by lia.
      apply Hfail. lia.
    + rewrite attempts_snoc_sleep, attempts_snoc_call.
      replace (S (attempts t) + k) with (attempts t + S k) by lia. done.
Qed.

Lemma total_sleep_answered_call k texts :
  total_sleep (answered_call k texts) = (2 ^ Z.of_nat k - 1)%Z.
Proof.
  unfold total_sleep, answered_call.
  assert (Hs : ∀ k, sleeps (concat ((λ j, [GetEmbeddings texts;
                      Sleep (2 ^ Z.of_nat j)]) <$> seq 0 k)
                    ++ [GetEmbeddings texts])
               = (λ j, (2 ^ Z.of_nat j)%Z) <$> seq 0 k).
  { clear k. intros k. unfold sleeps. rewrite omap_app. simpl.
    rewrite app_nil_r. generalize 0. induction k as [|k IH]; intros s; [done|].
    simpl. by rewrite IH. }
  rewrite Hs. induction k as [|k IH]; [done|].
  rewrite seq_S, fmap_app, foldr_app. simpl.
  rewrite Z.add_0_r.
  assert (Hshift : ∀ (l : list Z) a, foldr Z.add a l = (foldr Z.add 0 l + a)%Z).
  { induction l as [|x l IHl]; intros a; simpl; [lia|]. rewrite IHl. lia. }
  rewrite Hshift, IH. rewrite Nat2Z.inj_succ, Z.pow_succ_r by lia. lia.
Qed.

(** X1.  A call whose first [k] requests fail, [k] below 5, and whose next
    request is answered returns that answer after [k + 1] requests, having
    slept 1, 2, ... seconds after the failed ones: [2^k - 1] seconds in
    all. *)
Theorem call_answered_after_failures (k : nat) (texts : list json)
    (t : list event) (vs : list vector)
    (Hk : k < 5)
    (Hfail : ∀ j, j < k →
               returns (embedding_service (attempts t + j) texts) = false)
    (Hok : embedding_service (attempts t + k) texts = inr vs) :
  get_embeddings_with_retry texts t = (inr vs, t ++ answered_call k texts)
  ∧ requests (answered_call k texts) = replicate (S k) texts
  ∧ total_sleep (answered_call k texts) = (2 ^ Z.of_nat k - 1)%Z.
Proof.
  split; [|split].
  - unfold Embedder.get_embeddings_with_retry.
    rewrite (retry_loop_answered k 5 1 texts t vs Hk Hfail Hok).
    unfold answered_call. do 4 f_equal.
    apply list_fmap_ext. intros _ j _. simpl. by rewrite Z.mul_1_l.
  - clear. unfold answered_call, requests. rewrite omap_app.
    rewrite replicate_S_end. f_equal.
    generalize 0. induction k as [|k IH]; intros s; [done|].
    simpl. by rewrite IH.
  - apply total_sleep_answered_call.
Qed.

(** X2.  When the service answers a batch with fewer vectors than texts,
    the records that have a vector are written, the others of the batch
    are dropped, and the run goes on: the [IndexError] of the write loop is
    swallowed with the batch half written. *)
Theorem short_answer_keeps_a_prefix (batch : list item) (texts : list json)
    (t t1 : list event) (vs : list vector)
    (Htexts : texts_of batch = Some texts)
    (Hcall : get_embeddings_with_retry texts t = (inr vs, t1))
    (Hshort : length vs < length batch) :
  result (process_batch batch t) = inr tt
  ∧ outfile (final (process_batch batch t))
    = outfile t ++ zip_with with_embedding (take (length vs) batch) vs
  ∧ length (zip_with with_embedding (take (length vs) batch) vs) = length vs.
Proof.
  rewrite (process_batch_run embedding_service), Htexts, Hcall.
  destruct (retry_loop_run embedding_service 5 1 texts t) as (tr & Htr & Hout & _).
  fold (get_embeddings_with_retry texts) in Htr. rewrite Hcall in Htr.
  simpl in Htr. subst t1. unfold result, final. simpl.
  split; [done|]. split.
  - rewrite !outfile_app, Hout, outfile_write_lines, app_nil_r.
    by rewrite zip_with_take_l.
  - rewrite length_zip_with, length_take. lia.
Qed.

Lemma for_each_app {S A} (l1 l2 : list A) (f : A → M S unit) s :
  for_each (l1 ++ l2) f s = bind (for_each l1 f) (λ _, for_each l2 f) s.
Proof.
  revert s. induction l1 as [|x l1 IH]; intros s; [done|].
  simpl. unfold bind. destruct (f x s) as [[e|[]] s1]; [done|].
  rewrite IH. done.
Qed.

(** X3.  A record without a ["text"] stops the run with [KeyError]: the
    batches before the batch of that record are processed as usual, and
    nothing is requested or written for that batch and those after it. *)
Theorem record_without_text_aborts (lines : list item) (t : list event)
    (before : list (list item)) (batch : list item) (after : list (list item))
    (Hbatches : consecutive_batches (effective_batch_size EMBEDDING_BATCH_SIZE)
                  lines = before ++ batch :: after)
    (Hbefore : Forall (λ b, is_Some (texts_of b)) before)
    (Hbatch : texts_of batch = None) :
  generate_embeddings lines t
  = (inl (Exn KeyError "'text'"), final (for_each before process_batch t)).
Proof.
  rewrite (generate_embeddings_batches embedding_service), Hbatches.
  rewrite for_each_app. unfold bind at 1.
  destruct (for_each_requests embedding_service before t Hbefore) as [Hres _].
  unfold result, final in *.
  destruct (for_each before process_batch t) as [r t1]. simpl in Hres. subst r.
  simpl. unfold bind. by rewrite (process_batch_run embedding_service), Hbatch.
Qed.

Lemma singleton_batches (l : list item) :
  consecutive_batches 1 l = (λ it, [it]) <$> l.
Proof.
  induction l as [|x l IH]; [done|].
  rewrite consecutive_batches_step by (done || lia). simpl.
  rewrite drop_0. by rewrite IH.
Qed.

(** X4.  With a batch size below 2, zero and negative sizes included, every
    record is a batch of its own: the run is one call per record. *)
Theorem small_batch_size_means_single_records (lines : list item)
    (t : list event) (HB : (EMBEDDING_BATCH_SIZE ≤ 1)%Z) :
  consecutive_batches (effective_batch_size EMBEDDING_BATCH_SIZE) lines
  = (λ it, [it]) <$> lines
  ∧ generate_embeddings lines t
    = for_each ((λ it, [it]) <$> lines) process_batch t.
Proof.
  assert (Heff : effective_batch_size EMBEDDING_BATCH_SIZE = 1)
    by (unfold effective_batch_size; lia).
  rewrite (generate_embeddings_batches embedding_service), Heff.
  by rewrite singleton_batches.
Qed.

(** X5.  In every run, the records written during the run, [new], are at
    most as many as the records read, and their ids are a subsequence of
    the ids read; when the ids of the input records are pairwise distinct,
    so are the ids of the records written.  ([outfile t] is what the trace
    had recorded as written before the run started.) *)
Theorem distinct_ids_stay_distinct (lines : list item) (t : list event) :
  ∃ new : list item,
    outfile (final (generate_embeddings lines t)) = outfile t ++ new
    ∧ length new ≤ length lines
    ∧ ids new `sublist_of` ids lines
    ∧ (NoDup (ids lines) → NoDup (ids new)).
Proof.
  destruct (run_output embedding_service EMBEDDING_BATCH_SIZE lines t)
    as (answers & _ & Hout).
  destruct (batches_kept
    (consecutive_batches (effective_batch_size EMBEDDING_BATCH_SIZE) lines)
    answers) as (kept & Heq & Hsub).
  rewrite consecutive_batches_concat in Hsub
    by (unfold effective_batch_size; lia).
  exists ((λ p, with_embedding p.1 p.2) <$> kept).
  assert (Hnew : ids ((λ p, with_embedding p.1 p.2) <$> kept) = ids kept.*1).
  { unfold ids. rewrite <- !list_fmap_compose. apply list_fmap_ext.
    intros _ [it v] _. simpl. unfold with_embedding.
    by rewrite lookup_insert_ne. }
  assert (Hsubids : ids kept.*1 `sublist_of` ids lines)
    by (unfold ids; by apply fmap_sublist).
  split; [unfold final; by rewrite Hout, Heq|]. split.
  - rewrite length_fmap, <- (length_fmap fst). by apply sublist_length.
  - rewrite Hnew. split; [done|]. intros Hids. by eapply sublist_NoDup.
Qed.

Lemma requests_between (f : list item → list json) (counts : list nat)
    (bs : list (list item)) :
  Forall2 (λ k (_ : list item), 1 ≤ k ≤ 5) counts bs →
  length bs
  ≤ length (concat (zip_with (λ k b, replicate k (f b)) counts bs))
  ≤ 5 * length bs.
Proof.
  induction 1 as [|k b counts bs Hk _ IH]; simpl; [lia|].
  rewrite length_app, length_replicate. lia.
Qed.

(** X6.  With a batch size [B] of at least 1 and [N] records that all have
    a text, a run sends at least [ceil(N/B)] and at most [5 ceil(N/B)]
    requests to the embedding service. *)
Theorem requests_of_a_run_are_bounded (lines : list item) (t : list event)
    (HB : (1 ≤ EMBEDDING_BATCH_SIZE)%Z) (Htexts : all_have_text lines) :
  ∃ sent : list (list json),
    requests (final (generate_embeddings lines t)) = requests t ++ sent
    ∧ ceil_div (length lines) (Z.to_nat EMBEDDING_BATCH_SIZE) ≤ length sent
    ∧ length sent ≤ 5 * ceil_div (length lines) (Z.to_nat EMBEDDING_BATCH_SIZE).
Proof.
  assert (Heff : effective_batch_size EMBEDDING_BATCH_SIZE
                 = Z.to_nat EMBEDDING_BATCH_SIZE)
    by (unfold effective_batch_size; lia).
  assert (Hb : 0 < Z.to_nat EMBEDDING_BATCH_SIZE) by lia.
  rewrite (generate_embeddings_batches embedding_service), Heff.
  destruct (for_each_requests embedding_service
              (consecutive_batches (Z.to_nat EMBEDDING_BATCH_SIZE) lines) t
              (batches_have_texts _ _ Hb Htexts))
    as (_ & counts & Hcounts & Hreq).
  eexists. split; [exact Hreq|].
  rewrite <- (consecutive_batches_length _ lines Hb).
  apply requests_between. exact Hcounts.
Qed.

Lemma skipped_answers (bs : list (list item)) (answers : list (list vector)) :
  (∀ n texts, returns (embedding_service n texts) = false) →
  Forall2 (answer_of embedding_service) bs answers →
  concat (zip_with (zip_with with_embedding) bs answers) = [].
Proof.
  intros Hdown. induction 1 as [|b vs bs answers Hb _ IH]; [done|].
  simpl. rewrite IH, app_nil_r.
  destruct Hb as [->|(n & texts & _ & Hn)]; [by rewrite zip_with_nil_r|].
  specialize (Hdown n texts). by rewrite Hn in Hdown.
Qed.

(** X7.  The output file is opened for writing before any request is made:
    when the input file is there, all its records have a text and the
    embedding service fails every request, the program ends normally and
    leaves the output file empty, whatever it held before; no other file
    changes. *)
Theorem failing_service_empties_the_output (files : gmap string (list item))
    (lines : list item)
    (Hin : files !! INGESTED_DATA_FILE = Some lines)
    (Htexts : all_have_text lines)
    (Hdown : ∀ n texts, returns (embedding_service n texts) = false) :
  (main embedding_service EMBEDDING_BATCH_SIZE files).1 = inr tt
  ∧ (main embedding_service EMBEDDING_BATCH_SIZE files).2.1
      !! EMBEDDED_DATA_FILE = Some []
  ∧ ∀ name, name ≠ EMBEDDED_DATA_FILE →
      (main embedding_service EMBEDDING_BATCH_SIZE files).2.1 !! name
      = files !! name.
Proof.
  unfold main. rewrite Hin. simpl.
  assert (Hb : 0 < effective_batch_size EMBEDDING_BATCH_SIZE)
    by (unfold effective_batch_size; lia).
  split; [|split].
  - rewrite (generate_embeddings_batches embedding_service).
    apply for_each_requests. by apply batches_have_texts.
  - rewrite lookup_insert_eq. f_equal.
    destruct (run_output embedding_service EMBEDDING_BATCH_SIZE lines [])
      as (answers & Hans & Hout).
    rewrite Hout. simpl. by apply skipped_answers.
  - intros name Hname. by rewrite lookup_insert_ne.
Qed.

End EmbedderMore.

(** *** The Embedder on further concrete inputs *)

Lemma seven_records_have_text : EmbedderMain.all_have_text Scenario.seven_records.
Proof. repeat constructor; by eexists. Qed.

Lemma seven_records_ids_distinct : NoDup (EmbedderMain.ids Scenario.seven_records).
Proof.
  change (EmbedderMain.ids Scenario.seven_records)
    with ((λ n, Some (JString ("id-" +:+ pretty n))) <$> seq 1 7).
  apply NoDup_fmap_2; [|apply NoDup_seq].
  intros i j [= H]. by apply (inj pretty).
Qed.

Lemma call_answered_witness :
  2 < 5
  ∧ Cases.fails_twice 2 [JString "text 1"] = inr [[1 # 2; 1 # 4]%Q]
  ∧ Embedder.get_embeddings_with_retry Cases.fails_twice [JString "text 1"] []
    = (inr [[1 # 2; 1 # 4]%Q],
       EmbedderMain.answered_call 2 [JString "text 1"]).
Proof.
  split; [lia|]. split; [reflexivity|].
  apply (call_answered_after_failures Cases.fails_twice 2 [JString "text 1"] []
           [[1 # 2; 1 # 4]%Q]).
  - lia.
  - intros j Hj. destruct j as [|[|j]]; [reflexivity|reflexivity|lia].
  - reflexivity.
Defined.

Lemma short_answer_witness :
  Embedder.texts_of (take 2 Scenario.seven_records)
  = Some [JString "text 1"; JString "text 2"]
  ∧ Embedder.outfile
      (final (Embedder.process_batch Cases.one_vector
                (take 2 Scenario.seven_records) []))
    = [Embedder.with_embedding (Scenario.chunk_record 1) [1 # 2; 1 # 4]%Q].
Proof.
  split; [reflexivity|].
  apply (short_answer_keeps_a_prefix Cases.one_vector
           (take 2 Scenario.seven_records)
           [JString "text 1"; JString "text 2"] []
           [Embedder.GetEmbeddings [JString "text 1"; JString "text 2"]]
           [[1 # 2; 1 # 4]%Q]).
  - reflexivity.
  - reflexivity.
  - simpl. lia.
Defined.

Lemma record_without_text_witness :
  Embedder.texts_of [Cases.no_text_record] = None
  ∧ Embedder.generate_embeddings Scenario.first_request_only 1 Cases.three_lines []
    = (inl (Exn KeyError "'text'"),
       final (for_each [[Scenario.chunk_record 1]]
                (Embedder.process_batch Scenario.first_request_only) [])).
Proof.
  split; [reflexivity|].
  apply (record_without_text_aborts Scenario.first_request_only 1
           Cases.three_lines [] [[Scenario.chunk_record 1]]
           [Cases.no_text_record] [[Scenario.chunk_record 3]]).
  - reflexivity.
  - repeat constructor. by eexists.
  - reflexivity.
Defined.

Lemma small_batch_size_witness :
  (0 ≤ 1)%Z
  ∧ Embedder.consecutive_batches (Embedder.effective_batch_size 0)
      Cases.three_lines
    = (λ it, [it]) <$> Cases.three_lines.
Proof.
  split; [lia|].
  apply (small_batch_size_means_single_records Scenario.always_failing 0
           Cases.three_lines []).
  lia.
Defined.

Lemma distinct_ids_witness :
  NoDup (EmbedderMain.ids Scenario.seven_records)
  ∧ ∃ new : list item,
      Embedder.outfile
        (final (Embedder.generate_embeddings Scenario.first_request_only 5
                  Scenario.seven_records []))
      = new
      ∧ length new ≤ 7
      ∧ EmbedderMain.ids new `sublist_of` EmbedderMain.ids Scenario.seven_records
      ∧ NoDup (EmbedderMain.ids new).
Proof.
  split; [exact seven_records_ids_distinct|].
  destruct (distinct_ids_stay_distinct Scenario.first_request_only 5
              Scenario.seven_records [])
    as (new & Hout & Hlen & Hsub & Hnew).
  exists new. split; [exact Hout|]. split; [exact Hlen|]. split; [exact Hsub|].
  exact (Hnew seven_records_ids_distinct).
Defined.

Lemma requests_bounded_witness :
  (1 ≤ 5)%Z
  ∧ EmbedderMain.all_have_text Scenario.seven_records
  ∧ ∃ sent : list (list json),
      Embedder.requests
        (final (Embedder.generate_embeddings Scenario.first_request_only 5
                  Scenario.seven_records []))
      = sent
      ∧ Embedder.ceil_div 7 5 ≤ length sent ≤ 5 * Embedder.ceil_div 7 5.
Proof.
  split; [lia|]. split; [exact seven_records_have_text|].
  destruct (requests_of_a_run_are_bounded Scenario.first_request_only 5
              Scenario.seven_records [] ltac:(lia) seven_records_have_text)
    as (sent & Hreq & Hlo & Hhi).
  exists sent. split; [exact Hreq|]. split; [exact Hlo|exact Hhi].
Defined.

Lemma failing_service_witness :
  Cases.old_files !! EmbedderMain.INGESTED_DATA_FILE = Some Scenario.seven_records
  ∧ Cases.old_files !! EmbedderMain.EMBEDDED_DATA_FILE
    = Some [Scenario.chunk_record 9]
  ∧ (EmbedderMain.main Scenario.always_failing 5 Cases.old_files).2.1
      !! EmbedderMain.EMBEDDED_DATA_FILE = Some [].
Proof.
  split; [reflexivity|]. split; [reflexivity|].
  apply (failing_service_empties_the_output Scenario.always_failing 5
           Cases.old_files Scenario.seven_records).
  - reflexivity.
  - exact seven_records_have_text.
  - intros n texts. reflexivity.
Defined.

(** ** The Collector: video ids, skipped URLs, escaping exceptions *)

Section StringFacts.

Lemma append_cons (x : ascii) (a b : string) :
  String x a +:+ b = String x (a +:+ b).
Proof. reflexivity. Qed.

Lemma append_assoc (a b c : string) : (a +:+ b) +:+ c = a +:+ (b +:+ c).
Proof.
  induction a as [|x a IH]; [done|]. rewrite !append_cons. by rewrite IH.
Qed.

Lemma append_nil_r (a : string) : a +:+ "" = a.
Proof. induction a as [|x a IH]; [done|]. rewrite append_cons. by rewrite IH. Qed.

Lemma prefix_two (c1 c2 a b : ascii) (s : string) :
  String.prefix (String c1 (String c2 "")) (String a (String b s))
  = Ascii.eqb a c1 && Ascii.eqb b c2.
Proof.
  cbn [String.prefix]. destruct (ascii_dec c1 a) as [<-|Ha].
  - rewrite Ascii.eqb_refl. destruct (ascii_dec c2 b) as [<-|Hb].
    + rewrite Ascii.eqb_refl. by destruct s.
    + symmetry. apply andb_false_intro2, Ascii.eqb_neq. congruence.
  - symmetry. apply andb_false_intro1, Ascii.eqb_neq. congruence.
Qed.

Lemma split2_step (c1 c2 a b : ascii) (s cur : string) :
  Str.split2 c1 c2 (String a (String b s)) cur
  = if Ascii.eqb a c1 && Ascii.eqb b c2
    then cur :: Str.split2 c1 c2 s ""
    else Str.split2 c1 c2 (String b s) (cur +:+ String a "").
Proof. reflexivity. Qed.

(** A string without the separator is one piece. *)
Lemma split2_no_separator (c1 c2 : ascii) (s cur : string) :
  Str.contains (String c1 (String c2 "")) s = false →
  Str.split2 c1 c2 s cur = [cur +:+ s].
Proof.
  revert cur. induction s as [|a s IH]; intros cur Hno.
  - cbn [Str.split2]. by rewrite append_nil_r.
  - cbn [Str.contains] in Hno. apply orb_false_elim in Hno as [Hpre Hrest].
    destruct s as [|b s'].
    + done.
    + rewrite prefix_two in Hpre. rewrite split2_step, Hpre.
      rewrite (IH _ Hrest). by rewrite append_assoc.
Qed.

(** A string with the separator once is cut in two around it. *)
Lemma split2_one_separator (c1 c2 : ascii) (pre rest cur : string) :
  c1 ≠ c2 →
  Str.contains (String c1 (String c2 "")) pre = false →
  Str.contains (String c1 (String c2 "")) rest = false →
  Str.split2 c1 c2 (pre +:+ String c1 (String c2 rest)) cur
  = [cur +:+ pre; rest].
Proof.
  intros Hne Hpre Hrest. revert cur.
  assert (Hcut : ∀ cur, Str.split2 c1 c2 (String c1 (String c2 rest)) cur
                        = [cur; rest]).
  { intros cur. rewrite split2_step, !Ascii.eqb_refl. cbn [andb].
    by rewrite (split2_no_separator _ _ _ _ Hrest). }
  induction pre as [|a pre IH]; intros cur.
  - change ("" +:+ String c1 (String c2 rest)) with (String c1 (String c2 rest)).
    by rewrite Hcut, append_nil_r.
  - cbn [Str.contains] in Hpre. apply orb_false_elim in Hpre as [Hhead Htail].
    destruct pre as [|b pre'].
    + change (String a "" +:+ String c1 (String c2 rest))
        with (String a (String c1 (String c2 rest))).
      rewrite split2_step.
      assert (Ascii.eqb c1 c2 = false) as -> by by apply Ascii.eqb_neq.
      rewrite andb_false_r. apply Hcut.
    + rewrite prefix_two in Hhead.
      change (String a (String b pre') +:+ String c1 (String c2 rest))
        with (String a (String b (pre' +:+ String c1 (String c2 rest)))).
      rewrite split2_step, Hhead.
      change (String b (pre' +:+ String c1 (String c2 rest)))
        with (String b pre' +:+ String c1 (String c2 rest)).
      rewrite (IH Htail). by rewrite append_assoc.
Qed.

End StringFacts.

Section CollectorMoreProperties.

Import Collector CollectorMore.

Variable netloc : string → exn + string.
Variable requests_get : string → exn + response.
Variable soup_text : string → exn + string.
Variable get_transcript : string → exn + list string.
Variable split_text : string → list string.
Variable uuid4 : nat → string.

Local Abbreviation get_youtube_transcript := (get_youtube_transcript get_transcript).
Local Abbreviation scrape_web_page := (scrape_web_page requests_get soup_text).
Local Abbreviation ingest_url :=
  (ingest_url netloc requests_get soup_text get_transcript split_text uuid4).
Local Abbreviation ingest_urls :=
  (ingest_urls netloc requests_get soup_text get_transcript split_text uuid4).
Local Abbreviation raises_at := (raises_at netloc requests_get soup_text).

(** X8.  A video URL without [v=] gives no content: the [IndexError] of
    [url.split("v=")[1]] is caught and printed, and the transcript service
    is not asked. *)
Theorem video_url_without_id_is_skipped (url : string) (w : world)
    (Hno : Str.contains "v=" url = false) :
  get_youtube_transcript url w
  = (inr None,
     World (outfile w)
           (stdout w ++ ["Error getting YouTube transcript from " +:+ url
                         +:+ ": " +:+ "list index out of range"])
           (uuids_drawn w)).
Proof.
  unfold Collector.get_youtube_transcript, try_except, mbind, M_bind, bind.
  rewrite (split2_no_separator "v" "=" url "" Hno). done.
Qed.

(** X9.  The video id is all that follows [v=] in the URL, further query
    parameters included: for a URL with a single [v=] the transcript of
    the rest of the URL is asked for, and its entries joined by a space
    are the content; a failure of the transcript service is printed and
    gives no content. *)
Theorem video_id_is_the_rest_of_the_url (pre rest : string) (w : world)
    (Hpre : Str.contains "v=" pre = false)
    (Hrest : Str.contains "v=" rest = false) :
  get_youtube_transcript (pre +:+ "v=" +:+ rest) w
  = match get_transcript rest with
    | inr entries => (inr (Some (Str.join " " entries)), w)
    | inl e =>
        (inr None,
         World (outfile w)
               (stdout w ++ ["Error getting YouTube transcript from "
                             +:+ (pre +:+ "v=" +:+ rest) +:+ ": " +:+ exn_msg e])
               (uuids_drawn w))
    end.
Proof.
  unfold Collector.get_youtube_transcript, try_except, mbind, M_bind, bind.
  change (pre +:+ "v=" +:+ rest) with (pre +:+ String "v" (String "=" rest)).
  rewrite (split2_one_separator "v" "=" pre rest "" ltac:(done) Hpre Hrest).
  simpl. unfold ask. by destruct (get_transcript rest) as [e|entries].
Qed.

(** X10.  A URL of a repository host that is not a video host is skipped:
    nothing is fetched, no record is written and no id is drawn; only the
    two lines are printed. *)
Theorem repository_urls_are_skipped (url domain : string) (w : world)
    (Hdomain : netloc url = inr domain)
    (Hvideo : Str.contains "youtube.com" domain = false)
    (Hrepo : Str.contains "github.com" domain = true) :
  ingest_url url w
  = (inr tt,
     World (outfile w)
           (stdout w ++ ["Ingesting content from: " +:+ url;
                         "Skipping GitHub repository for now. We will handle this separately."])
           (uuids_drawn w)).
Proof.
  unfold Collector.ingest_url, mbind, M_bind, bind, ask, print, modify.
  simpl. rewrite Hdomain, Hvideo, Hrepo.
  unfold get_github_repo_content, mbind, M_bind, bind, print, modify. simpl.
  by rewrite <- app_assoc.
Qed.

(** X11.  A page whose text is empty adds nothing: no record, no id, no
    line with a chunk count, and the splitter is not run. *)
Theorem empty_pages_add_nothing (url domain : string) (resp : response)
    (w : world)
    (Hdomain : netloc url = inr domain)
    (Hvideo : Str.contains "youtube.com" domain = false)
    (Hrepo : Str.contains "github.com" domain = false)
    (Hget : requests_get url = inr resp)
    (Hsoup : soup_text (content resp) = inr "") :
  ingest_url url w
  = (inr tt,
     World (outfile w) (stdout w ++ ["Ingesting content from: " +:+ url])
           (uuids_drawn w)).
Proof.
  unfold Collector.ingest_url, mbind, M_bind.
  unfold bind at 1. unfold print at 1, modify.
  unfold bind at 1. unfold ask at 1. rewrite Hdomain, Hvideo, Hrepo.
  unfold bind at 1.
  by rewrite (scrape_web_page_content requests_get soup_text url resp "" _ Hget Hsoup).
Qed.

(** Once the content is fetched, the rest of the loop body returns. *)
Lemma write_records_returns url domain (content : option string) w :
  ((if truthy content then
      let chunks := split_text (default "" content) in
      for_each chunks (λ chunk,
        id ← new_uuid uuid4;
        write_line (chunk_with_metadata id chunk url domain)) ;;
      print ("  - Ingested " +:+ pretty (length chunks) +:+ " chunks.")
    else ret tt) w).1 = inr tt.
Proof.
  destruct (truthy content); [|done].
  pose proof (write_chunks_run uuid4 url domain
                (split_text (default "" content)) w) as Hw.
  unfold mbind, M_bind in *. unfold bind at 1. cbv zeta. by rewrite Hw.
Qed.

Lemma raises_at_unique url e1 e2 : raises_at url e1 → raises_at url e2 → e1 = e2.
Proof.
  intros [H1|(d1 & Hd1 & _ & _ & _ & H1)] [H2|(d2 & Hd2 & _ & _ & _ & H2)];
    try congruence.
  destruct H1 as [H1|(r1 & Hr1 & H1)], H2 as [H2|(r2 & Hr2 & H2)];
    congruence.
Qed.

(** Either an exception leaves the loop body, having written nothing, or
    the body returns. *)
Lemma ingest_url_cases url w :
  (∃ e, raises_at url e ∧ (ingest_url url w).1 = inl e
        ∧ outfile (ingest_url url w).2 = outfile w)
  ∨ ((∀ e, ¬ raises_at url e) ∧ (ingest_url url w).1 = inr tt).
Proof.
  remember (ingest_url url w) as r eqn:Hr.
  unfold Collector.ingest_url, mbind, M_bind in Hr.
  unfold bind at 1 in Hr. unfold print at 1, modify in Hr.
  set (w0 := World (outfile w) (stdout w ++ ["Ingesting content from: " +:+ url])
                   (uuids_drawn w)) in Hr.
  unfold bind at 1 in Hr. unfold ask at 1 in Hr.
  destruct (netloc url) as [e|domain] eqn:Hdomain.
  { left. exists e. subst r. split; [by left|done]. }
  pose proof (write_records_returns url domain) as Htail.
  unfold mbind, M_bind in Htail. cbv zeta in Htail.
  destruct (Str.contains "youtube.com" domain) eqn:Hvideo.
  { right. split.
    - intros e [He|(d & Hd & Hv & _)]; congruence.
    - unfold bind at 1 in Hr.
      pose proof (get_youtube_transcript_never_raises get_transcript url w0) as Hn.
      destruct (get_youtube_transcript url w0) as [[e|content] w1]; [done|].
      subst r. apply Htail. }
  destruct (Str.contains "github.com" domain) eqn:Hrepo.
  { right. split.
    - intros e [He|(d & Hd & _ & Hg & _)]; congruence.
    - unfold bind at 1 in Hr.
      unfold get_github_repo_content, mbind, M_bind, bind, print, modify in Hr.
      simpl in Hr. subst r. done. }
  unfold bind at 1 in Hr.
  destruct (requests_get url) as [e|resp] eqn:Hget.
  - destruct (is_RequestException e) eqn:He.
    + right. split.
      * intros e' [H|(d & _ & _ & _ & He' & [H|(r' & H & _)])]; congruence.
      * unfold Collector.scrape_web_page, try_except, mbind, M_bind, bind, ask
          in Hr. rewrite Hget in Hr. simpl in Hr. rewrite He in Hr.
        unfold print, modify, ret in Hr. simpl in Hr. subst r.
        first [done | apply (Htail None)].
    + left. exists e. split.
      * right. exists domain. repeat split; try done. by left.
      * unfold Collector.scrape_web_page, try_except, mbind, M_bind, bind, ask
          in Hr. rewrite Hget in Hr. simpl in Hr. rewrite He in Hr.
        by subst r.
  - destruct (soup_text (content resp)) as [e|text] eqn:Hsoup.
    + destruct (is_RequestException e) eqn:He.
      * right. split.
        { intros e' [H|(d & _ & _ & _ & He' & [H|(r' & H & H')])];
            congruence. }
        unfold Collector.scrape_web_page, try_except, mbind, M_bind, bind, ask
          in Hr. rewrite Hget in Hr. simpl in Hr. rewrite Hsoup in Hr.
        simpl in Hr. rewrite He in Hr.
        unfold print, modify, ret in Hr. simpl in Hr. subst r.
        first [done | apply (Htail None)].
      * left. exists e. split.
        { right. exists domain. repeat split; try done. right. by exists resp. }
        unfold Collector.scrape_web_page, try_except, mbind, M_bind, bind, ask
          in Hr. rewrite Hget in Hr. simpl in Hr. rewrite Hsoup in Hr.
        simpl in Hr. rewrite He in Hr. by subst r.
    + right. split.
      { intros e' [H|(d & _ & _ & _ & He' & [H|(r' & H & H')])];
          congruence. }
      rewrite (scrape_web_page_content requests_get soup_text url resp text _
                 Hget Hsoup) in Hr.
      subst r. apply (Htail (Some text)).
Qed.

(** X12.  An exception leaves the body of the URL loop exactly when
    [urlparse] raises it, or when the URL is scraped as a web page and
    [requests.get] or the parser raises it and it is not a
    [RequestException]; video and repository URLs never raise. *)
Theorem exceptions_that_leave_the_loop_body (url : string) (w : world) (e : exn) :
  result (ingest_url url w) = inl e ↔ raises_at url e.
Proof.
  unfold result. destruct (ingest_url_cases url w)
    as [(e0 & Hraise & Hres & _)|[Hnever Hres]]; rewrite Hres.
  - split.
    + by intros [= <-].
    + intros He. f_equal. by apply (raises_at_unique url).
  - split; [done|]. intros He. by destruct (Hnever e).
Qed.

Lemma ingest_loop_returns urls w :
  Forall (λ u, ∀ e, ¬ raises_at u e) urls →
  (for_each urls ingest_url w).1 = inr tt.
Proof.
  intros Hurls. revert w. induction Hurls as [|u urls Hu _ IH]; intros w; [done|].
  cbn [for_each]. unfold bind.
  destruct (ingest_url_cases u w) as [(e0 & Hraise & _)|[_ Hres]].
  - by destruct (Hu e0).
  - destruct (ingest_url u w) as [[e|[]] w1]; [done|]. apply IH.
Qed.

(** X13.  When an exception leaves the loop at some URL, the run ends with
    it, the URLs after it are not handled, and the output file holds
    exactly the records of the URLs before it. *)
Theorem escaping_exception_keeps_earlier_records (before after : list string)
    (url : string) (w : world) (e : exn)
    (Hbefore : Forall (λ u, ∀ e', ¬ raises_at u e') before)
    (Hraise : raises_at url e) :
  result (ingest_urls (before ++ url :: after) w) = inl e
  ∧ outfile (final (ingest_urls (before ++ url :: after) w))
    = outfile (final (ingest_urls before w)).
Proof.
  rewrite !(ingest_urls_unfold netloc requests_get soup_text get_transcript
              split_text uuid4).
  set (w0 := World [] (stdout w) (uuids_drawn w)).
  pose proof (ingest_loop_returns before w0 Hbefore) as Hret.
  destruct (for_each before ingest_url w0) as [r w1] eqn:Hloop.
  simpl in Hret. subst r.
  destruct (ingest_url_cases url w1) as [(e0 & Hraise0 & Hres & Hout)|[Hnever _]];
    [|by destruct (Hnever e)].
  rewrite <- (raises_at_unique url e e0 Hraise Hraise0) in Hres.
  assert (Hrun : for_each (before ++ url :: after) ingest_url w0
                 = (inl e, (ingest_url url w1).2)).
  { rewrite for_each_app. unfold bind at 1. rewrite Hloop.
    cbn [for_each]. unfold bind.
    destruct (ingest_url url w1) as [r w2]. simpl in Hres. by subst r. }
  rewrite Hrun. unfold result, final. simpl. by split.
Qed.

End CollectorMoreProperties.

(** *** The Collector on further concrete inputs *)

Lemma video_url_without_id_witness :
  Str.contains "v=" "https://www.youtube.com/shorts/8rlNdKywldQ" = false
  ∧ (Collector.get_youtube_transcript Scenario.get_transcript
       "https://www.youtube.com/shorts/8rlNdKywldQ" Scenario.fresh_world).1
    = inr None.
Proof.
  split; [reflexivity|].
  rewrite (video_url_without_id_is_skipped Scenario.get_transcript
             "https://www.youtube.com/shorts/8rlNdKywldQ" Scenario.fresh_world
             eq_refl).
  reflexivity.
Defined.

Lemma video_id_witness :
  Str.contains "v=" "https://www.youtube.com/watch?" = false
  ∧ Str.contains "v=" "8rlNdKywldQ" = false
  ∧ Collector.get_youtube_transcript Scenario.get_transcript
      "https://www.youtube.com/watch?v=8rlNdKywldQ" Scenario.fresh_world
    = (inr (Some "hello and welcome"), Scenario.fresh_world).
Proof.
  split; [reflexivity|]. split; [reflexivity|].
  apply (video_id_is_the_rest_of_the_url Scenario.get_transcript
           "https://www.youtube.com/watch?" "8rlNdKywldQ" Scenario.fresh_world
           eq_refl eq_refl).
Defined.

(** The transcript asked for is that of the id with the query parameters
    that follow it, which the service does not know. *)
Example video_url_with_more_parameters :
  (Collector.get_youtube_transcript Scenario.get_transcript
     "https://www.youtube.com/watch?v=8rlNdKywldQ&t=10s" Scenario.fresh_world).1
  = inr None
  ∧ Collector.stdout
      (Collector.get_youtube_transcript Scenario.get_transcript
         "https://www.youtube.com/watch?v=8rlNdKywldQ&t=10s"
         Scenario.fresh_world).2
    = ["Error getting YouTube transcript from https://www.youtube.com/watch?v=8rlNdKywldQ&t=10s: 8rlNdKywldQ&t=10s"].
Proof. vm_compute. split; reflexivity. Qed.

Lemma repository_urls_witness :
  Scenario.netloc "https://github.com/GoogleCloudPlatform/agent-starter-pack"
  = inr "github.com"
  ∧ Collector.outfile
      (final (Collector.ingest_url Scenario.netloc Scenario.requests_get
                Scenario.soup_text Scenario.get_transcript Scenario.split_text
                Scenario.uuid4
                "https://github.com/GoogleCloudPlatform/agent-starter-pack"
                Scenario.fresh_world))
    = [].
Proof.
  split; [reflexivity|].
  rewrite (repository_urls_are_skipped Scenario.netloc Scenario.requests_get
             Scenario.soup_text Scenario.get_transcript Scenario.split_text
             Scenario.uuid4
             "https://github.com/GoogleCloudPlatform/agent-starter-pack"
             "github.com" Scenario.fresh_world eq_refl eq_refl eq_refl).
  reflexivity.
Defined.

Lemma empty_pages_witness :
  Cases.requests_get "https://example.org/empty" = inr (Collector.Response 200 "")
  ∧ Collector.ingest_url Scenario.netloc Cases.requests_get Scenario.soup_text
      Scenario.get_transcript Scenario.split_text Scenario.uuid4
      "https://example.org/empty" Scenario.fresh_world
    = (inr tt,
       Collector.World [] ["Ingesting content from: https://example.org/empty"] 0).
Proof.
  split; [reflexivity|].
  apply (empty_pages_add_nothing Scenario.netloc Cases.requests_get
           Scenario.soup_text Scenario.get_transcript Scenario.split_text
           Scenario.uuid4 "https://example.org/empty" "example.org"
           (Collector.Response 200 "") Scenario.fresh_world);
    reflexivity.
Defined.

Lemma good_page_never_raises :
  ∀ e, ¬ CollectorMore.raises_at Cases.netloc Scenario.requests_get
           Scenario.soup_text "https://example.org/b" e.
Proof.
  intros e [H|(d & _ & _ & _ & _ & [H|(resp & Hget & Hsoup)])];
    try discriminate H.
  injection Hget as <-. discriminate Hsoup.
Qed.

Lemma malformed_url_raises :
  CollectorMore.raises_at Cases.netloc Scenario.requests_get Scenario.soup_text
    "http://[::1/" (Exn ValueError "Invalid IPv6 URL").
Proof. by left. Qed.

Lemma escaping_exception_witness :
  CollectorMore.raises_at Cases.netloc Scenario.requests_get Scenario.soup_text
    "http://[::1/" (Exn ValueError "Invalid IPv6 URL")
  ∧ result (Collector.ingest_urls Cases.netloc Scenario.requests_get
              Scenario.soup_text Scenario.get_transcript Scenario.split_text
              Scenario.uuid4
              (["https://example.org/b"] ++ "http://[::1/"
                 :: ["https://example.org/missing"])
              Scenario.fresh_world)
    = inl (Exn ValueError "Invalid IPv6 URL").
Proof.
  split; [exact malformed_url_raises|].
  apply (escaping_exception_keeps_earlier_records Cases.netloc
           Scenario.requests_get Scenario.soup_text Scenario.get_transcript
           Scenario.split_text Scenario.uuid4 ["https://example.org/b"]
           ["https://example.org/missing"] "http://[::1/" Scenario.fresh_world
           (Exn ValueError "Invalid IPv6 URL")).
  - constructor; [exact good_page_never_raises|constructor].
  - exact malformed_url_raises.
Defined.

(** A malformed URL in the middle of the list: the records of the URL
    before it are in the file, the URL after it is not fetched. *)
Example malformed_url_in_the_list :
  Collector.field "text" <$> Collector.outfile
    (final (Collector.ingest_urls Cases.netloc Scenario.requests_get
              Scenario.soup_text Scenario.get_transcript Scenario.split_text
              Scenario.uuid4
              ["https://example.org/b"; "http://[::1/";
               "https://example.org/missing"]
              Scenario.fresh_world))
  = [Some (JString "hello"); Some (JString "world")].
Proof. vm_compute. reflexivity. Qed.

(** ** The Indexer: object names, reuse, failed uploads *)

Section PathFacts.

Import CollectorMore.

Lemma basename_from_app (a b cur : string) :
  Str.basename_from (a +:+ b) cur = Str.basename_from b (Str.basename_from a cur).
Proof.
  revert cur. induction a as [|x a IH]; intros cur; [done|].
  rewrite append_cons. cbn [Str.basename_from].
  destruct (Ascii.eqb x "/"); apply IH.
Qed.

Lemma basename_from_no_slash (p cur : string) :
  has_char "/" p = false → Str.basename_from p cur = cur +:+ p.
Proof.
  revert cur. induction p as [|x p IH]; intros cur Hp.
  - by rewrite append_nil_r.
  - cbn [has_char] in Hp. apply orb_false_elim in Hp as [Hx Hp].
    cbn [Str.basename_from]. rewrite Hx, (IH _ Hp). by rewrite append_assoc.
Qed.

Lemma has_char_append c (a b : string) :
  has_char c (a +:+ b) = has_char c a || has_char c b.
Proof.
  induction a as [|x a IH]; [done|].
  rewrite append_cons. cbn [has_char]. by rewrite IH, orb_assoc.
Qed.

Lemma basename_from_has_no_slash (p cur : string) :
  has_char "/" cur = false → has_char "/" (Str.basename_from p cur) = false.
Proof.
  revert cur. induction p as [|x p IH]; intros cur Hcur; [done|].
  cbn [Str.basename_from]. destruct (Ascii.eqb x "/") eqn:Hx.
  - by apply IH.
  - apply IH. rewrite has_char_append, Hcur. cbn [has_char]. by rewrite Hx.
Qed.

Lemma basename_from_after_slash (a cur : string) :
  Str.ends_with_char "/" a = true → Str.basename_from a cur = "".
Proof.
  revert cur. induction a as [|x a IH]; intros cur Ha; [done|].
  destruct a as [|y a'].
  - cbn [Str.ends_with_char] in Ha. cbn [Str.basename_from]. by rewrite Ha.
  - cbn [Str.basename_from]. change (Str.ends_with_char "/" (String x (String y a')))
      with (Str.ends_with_char "/" (String y a')) in Ha.
    destruct (Ascii.eqb x "/"); by apply IH.
Qed.

Lemma prefix_slash_has_char (b : string) :
  has_char "/" b = false → String.prefix "/" b = false.
Proof.
  destruct b as [|x b]; [done|]. cbn [has_char String.prefix].
  intros H. apply orb_false_elim in H as [Hx _].
  destruct (ascii_dec "/" x) as [<-|Hne]; [done|done].
Qed.

(** X14.  The name of a file has no slash, and the object uploaded for a
    file keeps the name of the file: the last component of the destination
    object name, and of the URI returned, is the file's base name,
    whatever the folder and the bucket. *)
Theorem uploaded_object_keeps_the_file_name (folder bucket file : string) :
  has_char "/" (Str.basename file) = false
  ∧ Str.basename (Str.path_join folder (Str.basename file)) = Str.basename file
  ∧ Str.basename ("gs://" +:+ bucket +:+ "/"
                  +:+ Str.path_join folder (Str.basename file))
    = Str.basename file.
Proof.
  assert (Hname : has_char "/" (Str.basename file) = false)
    by by apply basename_from_has_no_slash.
  assert (Hdest : Str.basename (Str.path_join folder (Str.basename file))
                  = Str.basename file).
  { unfold Str.path_join. rewrite (prefix_slash_has_char _ Hname).
    unfold Str.basename at 1.
    destruct (String.eqb folder "") eqn:Hempty.
    - apply String.eqb_eq in Hempty as ->. cbn [orb].
      change ("" +:+ Str.basename file) with (Str.basename file).
      by rewrite (basename_from_no_slash _ _ Hname).
    - cbn [orb]. destruct (Str.ends_with_char "/" folder) eqn:Hends.
      + rewrite basename_from_app, (basename_from_after_slash _ _ Hends).
        by rewrite (basename_from_no_slash _ _ Hname).
      + rewrite basename_from_app.
        change ("/" +:+ Str.basename file) with (String "/" (Str.basename file)).
        cbn [Str.basename_from]. cbn [Ascii.eqb Bool.eqb].
        by rewrite (basename_from_no_slash _ _ Hname). }
  split; [done|]. split; [done|].
  unfold Str.basename at 1.
  rewrite <- !append_assoc, (append_assoc _ "/" _), basename_from_app.
  change ("/" +:+ Str.path_join folder (Str.basename file))
    with (String "/" (Str.path_join folder (Str.basename file))).
  cbn [Str.basename_from]. cbn [Ascii.eqb Bool.eqb]. exact Hdest.
Qed.

End PathFacts.

Section IndexerMoreProperties.

Import Indexer IndexerMore.

Variables PROJECT_ID LOCATION : string.
Variables INDEX_DISPLAY_NAME ENDPOINT_DISPLAY_NAME : string.
Variable EMBEDDING_DIMENSIONS : Z.

Local Abbreviation upload_data_to_gcs := (upload_data_to_gcs LOCATION).
Local Abbreviation create_and_deploy_index :=
  (create_and_deploy_index PROJECT_ID LOCATION INDEX_DISPLAY_NAME
     ENDPOINT_DISPLAY_NAME EMBEDDING_DIMENSIONS).
Local Abbreviation deploy_to_endpoint :=
  (deploy_to_endpoint PROJECT_ID LOCATION INDEX_DISPLAY_NAME ENDPOINT_DISPLAY_NAME).

Ltac step_cloud :=
  unfold mbind, M_bind, bind, try_except, raise, ret, get, modify; simpl.

Lemma found_undeployed_index_run gcs_uri c ix :
  find_index INDEX_DISPLAY_NAME (indexes c) = Some ix →
  deployed_indexes ix = [] →
  create_and_deploy_index gcs_uri c = deploy_to_endpoint ix c.
Proof.
  intros Hfind Hdep. unfold Indexer.create_and_deploy_index. step_cloud.
  rewrite Hfind. simpl. by rewrite Hdep.
Qed.

(** X15.  When an index of the configured display name exists, deployed or
    not, the path of the uploaded data plays no part: the outcome is the
    same for every path, and no index is created. *)
Theorem existing_index_is_never_rebuilt (c : cloud) (ix : index)
    (uri1 uri2 : string)
    (Hfind : find_index INDEX_DISPLAY_NAME (indexes c) = Some ix) :
  create_and_deploy_index uri1 c = create_and_deploy_index uri2 c
  ∧ count_requests is_create_index (final (create_and_deploy_index uri1 c))
    = count_requests is_create_index c.
Proof.
  destruct (deployed_indexes ix) as [|d ds] eqn:Hdep.
  - rewrite !(found_undeployed_index_run _ c ix Hfind Hdep). split; [done|].
    by destruct (deploy_to_endpoint_run PROJECT_ID LOCATION INDEX_DISPLAY_NAME
                   ENDPOINT_DISPLAY_NAME ix c Hfind Hdep)
      as (ep & _ & _ & _ & _ & Hcount & _).
  - assert (Hconv : converged INDEX_DISPLAY_NAME c (index_endpoint d))
      by by exists ix, d, ds.
    rewrite !(deployed_index_short_circuit PROJECT_ID LOCATION INDEX_DISPLAY_NAME
                ENDPOINT_DISPLAY_NAME EMBEDDING_DIMENSIONS _ c _ Hconv).
    done.
Qed.

Lemma deploy_to_found_endpoint (ix : index) (ep : endpoint) c :
  find_endpoint ENDPOINT_DISPLAY_NAME (endpoints c) = Some ep →
  result (deploy_to_endpoint ix c) = inr (endpoint_resource_name ep)
  ∧ count_requests is_create_endpoint (final (deploy_to_endpoint ix c))
    = count_requests is_create_endpoint c
  ∧ count_requests is_deploy (final (deploy_to_endpoint ix c))
    = S (count_requests is_deploy c)
  ∧ endpoints (final (deploy_to_endpoint ix c)) = endpoints c.
Proof.
  intros Hep. unfold Indexer.deploy_to_endpoint. step_cloud. rewrite Hep. simpl.
  split; [done|]. unfold count_requests. simpl.
  rewrite !filter_app, !length_app. simpl. repeat split; lia.
Qed.

(** X16.  When an endpoint of the configured display name exists and the
    index is not yet deployed, that endpoint is the one deployed to and
    returned: no endpoint is created, and one deployment is requested. *)
Theorem existing_endpoint_is_reused (c : cloud) (ep : endpoint) (gcs_uri : string)
    (Hep : find_endpoint ENDPOINT_DISPLAY_NAME (endpoints c) = Some ep)
    (Hnot : find_index INDEX_DISPLAY_NAME (indexes c)
              ≫= (λ ix, head (deployed_indexes ix)) = None) :
  result (create_and_deploy_index gcs_uri c) = inr (endpoint_resource_name ep)
  ∧ count_requests is_create_endpoint (final (create_and_deploy_index gcs_uri c))
    = count_requests is_create_endpoint c
  ∧ count_requests is_deploy (final (create_and_deploy_index gcs_uri c))
    = S (count_requests is_deploy c)
  ∧ endpoints (final (create_and_deploy_index gcs_uri c)) = endpoints c.
Proof.
  destruct (find_index INDEX_DISPLAY_NAME (indexes c)) as [ix|] eqn:Hfind.
  - simpl in Hnot. destruct (deployed_indexes ix) as [|d ds] eqn:Hdep; [|done].
    rewrite (found_undeployed_index_run _ c ix Hfind Hdep).
    by apply deploy_to_found_endpoint.
  - set (ix := Index (resource_name PROJECT_ID LOCATION "indexes" (next_id c))
                 INDEX_DISPLAY_NAME gcs_uri EMBEDDING_DIMENSIONS 150
                 "DOT_PRODUCT_DISTANCE" []).
    set (c1 := log (CreateTreeAhIndex INDEX_DISPLAY_NAME gcs_uri)
                 (bump_id (set_indexes (indexes c ++ [ix]) c))).
    assert (Hrun : create_and_deploy_index gcs_uri c = deploy_to_endpoint ix c1).
    { unfold Indexer.create_and_deploy_index, create_tree_ah_index. step_cloud.
      by rewrite Hfind. }
    rewrite Hrun.
    destruct (deploy_to_found_endpoint ix ep c1 Hep) as (H1 & H2 & H3 & H4).
    split; [done|]. rewrite H2, H3, H4. subst c1.
    rewrite !count_requests_log. simpl. unfold count_requests. simpl.
    repeat split; lia.
Qed.

(** X17.  When the input file is missing and no object exists at the
    destination, [upload_data_to_gcs] raises [FileNotFoundError]; by then
    the bucket exists, created if it was absent, and nothing was
    uploaded. *)
Theorem upload_of_a_missing_file_fails (source_file bucket_name
    destination_folder : string) (c : cloud)
    (Hfile : local_files c !! source_file = None)
    (Hobject : object_at c bucket_name
                 (Str.path_join destination_folder (Str.basename source_file))
               = None) :
  result (upload_data_to_gcs source_file bucket_name destination_folder c)
  = inl (Exn FileNotFoundError source_file)
  ∧ is_Some (buckets (final (upload_data_to_gcs source_file bucket_name
                               destination_folder c)) !! bucket_name)
  ∧ count_requests is_upload
      (final (upload_data_to_gcs source_file bucket_name destination_folder c))
    = count_requests is_upload c.
Proof.
  unfold object_at in Hobject.
  destruct (buckets c !! bucket_name) as [blobs|] eqn:Hb; simpl in Hobject.
  - unfold Indexer.upload_data_to_gcs, get_bucket, blob_exists,
      upload_from_filename. step_cloud.
    rewrite Hb. simpl. rewrite Hb. simpl. rewrite Hobject. simpl.
    rewrite Hfile. simpl. rewrite Hb. by repeat split.
  - unfold Indexer.upload_data_to_gcs, get_bucket, create_bucket, blob_exists,
      upload_from_filename. step_cloud.
    rewrite Hb. simpl. rewrite Hb. simpl. rewrite lookup_insert_eq. simpl.
    rewrite lookup_empty. simpl. rewrite Hfile. simpl.
    rewrite lookup_insert_eq. split; [done|]. split; [by eexists|].
    unfold count_requests. simpl. rewrite filter_app, length_app. simpl. lia.
Qed.

(** X18.  [upload_data_to_gcs] changes at most the object at its
    destination: every other object of every bucket is as before, and an
    object that exists at the destination keeps its content. *)
Theorem upload_touches_one_object (source_file bucket_name
    destination_folder : string) (c : cloud) :
  (∀ b n,
     (b, n) ≠ (bucket_name,
               Str.path_join destination_folder (Str.basename source_file)) →
     object_at (final (upload_data_to_gcs source_file bucket_name
                         destination_folder c)) b n
     = object_at c b n)
  ∧ (∀ data,
       object_at c bucket_name
         (Str.path_join destination_folder (Str.basename source_file))
       = Some data →
       upload_data_to_gcs source_file bucket_name destination_folder c
       = (inr ("gs://" +:+ bucket_name +:+ "/" +:+
               Str.path_join destination_folder (Str.basename source_file)),
          c)).
Proof.
  set (dest := Str.path_join destination_folder (Str.basename source_file)).
  split.
  - intros b n Hother. unfold object_at.
    destruct (buckets c !! bucket_name) as [blobs|] eqn:Hb.
    + destruct (blobs !! dest) as [old|] eqn:Hblob.
      * rewrite existing_object_not_uploaded; [done|]. by exists blobs, old.
      * unfold Indexer.upload_data_to_gcs, get_bucket, blob_exists,
          upload_from_filename. step_cloud.
        rewrite Hb. simpl. rewrite Hb. simpl. fold dest. rewrite Hblob. simpl.
        destruct (local_files c !! source_file) as [data|]; simpl; [|done].
        rewrite Hb. simpl.
        destruct (decide (b = bucket_name)) as [->|Hne].
        -- rewrite lookup_insert_eq, Hb. simpl.
           rewrite lookup_insert_ne; [done|].
           intros Heq. apply Hother. by f_equal.
        -- by rewrite lookup_insert_ne.
    + unfold Indexer.upload_data_to_gcs, get_bucket, create_bucket, blob_exists,
        upload_from_filename. step_cloud.
      rewrite Hb. simpl. rewrite Hb. simpl. rewrite lookup_insert_eq. simpl.
      rewrite lookup_empty. simpl.
      destruct (local_files c !! source_file) as [data|]; simpl.
      * rewrite lookup_insert_eq. simpl.
        destruct (decide (b = bucket_name)) as [->|Hne].
        -- rewrite lookup_insert_eq, Hb. simpl.
           rewrite lookup_insert_ne; [by rewrite lookup_empty|].
           intros Heq. apply Hother. by f_equal.
        -- by rewrite !lookup_insert_ne.
      * destruct (decide (b = bucket_name)) as [->|Hne].
        -- rewrite lookup_insert_eq, Hb. simpl. by rewrite lookup_empty.
        -- by rewrite lookup_insert_ne.
  - intros data Hdata. unfold object_at in Hdata.
    destruct (buckets c !! bucket_name) as [blobs|] eqn:Hb; [|done].
    simpl in Hdata. apply existing_object_not_uploaded. by exists blobs, data.
Qed.

End IndexerMoreProperties.

(** *** The Indexer on further concrete projects *)

Lemma existing_index_witness :
  Indexer.find_index "my_rag_index" (Indexer.indexes Cases.half_built_project)
  = Some Cases.undeployed_index
  ∧ Indexer.create_and_deploy_index "p" "l" "my_rag_index" "my_rag_endpoint" 768
      "gs://bucket/new.jsonl" Cases.half_built_project
    = Indexer.create_and_deploy_index "p" "l" "my_rag_index" "my_rag_endpoint" 768
        "gs://bucket/other.jsonl" Cases.half_built_project.
Proof.
  split; [reflexivity|].
  apply (existing_index_is_never_rebuilt "p" "l" "my_rag_index" "my_rag_endpoint"
           768 Cases.half_built_project Cases.undeployed_index
           "gs://bucket/new.jsonl" "gs://bucket/other.jsonl" eq_refl).
Defined.

Lemma existing_endpoint_witness :
  Indexer.find_endpoint "my_rag_endpoint"
    (Indexer.endpoints Cases.half_built_project)
  = Some Cases.existing_endpoint
  ∧ result (Indexer.create_and_deploy_index "p" "l" "my_rag_index"
              "my_rag_endpoint" 768 "gs://bucket/new.jsonl"
              Cases.half_built_project)
    = inr "projects/p/locations/l/indexEndpoints/3".
Proof.
  split; [reflexivity|].
  apply (existing_endpoint_is_reused "p" "l" "my_rag_index" "my_rag_endpoint" 768
           Cases.half_built_project Cases.existing_endpoint
           "gs://bucket/new.jsonl" eq_refl eq_refl).
Defined.

Lemma missing_file_witness :
  Indexer.local_files Scenario.empty_project !! "missing.jsonl" = None
  ∧ result (Indexer.upload_data_to_gcs "europe-west4" "missing.jsonl" "bucket"
              "folder" Scenario.empty_project)
    = inl (Exn FileNotFoundError "missing.jsonl").
Proof.
  split; [reflexivity|].
  apply (upload_of_a_missing_file_fails "europe-west4" "missing.jsonl" "bucket"
           "folder" Scenario.empty_project eq_refl eq_refl).
Defined.

Lemma upload_touches_one_object_witness :
  IndexerMore.object_at Cases.project_with_object "bucket"
    "folder/embedded_data.jsonl" = Some "old data"
  ∧ Indexer.upload_data_to_gcs "europe-west4" "embedded_data.jsonl" "bucket"
      "folder" Cases.project_with_object
    = (inr "gs://bucket/folder/embedded_data.jsonl", Cases.project_with_object).
Proof.
  split; [reflexivity|].
  exact (proj2 (upload_touches_one_object "europe-west4" "embedded_data.jsonl"
                  "bucket" "folder" Cases.project_with_object)
           "old data" eq_refl).
Defined.

(** A project with the index and the endpoint but no deployment: one run
    requests the upload and the deployment, and creates nothing. *)
Example run_on_a_half_built_project :
  Indexer.api_log
    (final (Indexer.main "p" "l" "embedded_data.jsonl" "bucket" "folder"
              "my_rag_index" "my_rag_endpoint" 768 Cases.half_built_project))
  = [Indexer.CreateBucket "bucket" "l";
     Indexer.UploadFromFilename "bucket" "folder/embedded_data.jsonl"
       "embedded_data.jsonl";
     Indexer.DeployIndex "projects/p/locations/l/indexEndpoints/3"
       "projects/p/locations/l/indexes/7" "deployed_myragindex_1700000000"
       "n1-standard-16" 1 2].
Proof. vm_compute. reflexivity. Qed.

(** ** The retrieval tool: what an answer needs *)

Section RetrievalMoreProperties.

Import Retrieval.

Variable get_embeddings : list string → exn + list vector.
Variable find_neighbors : find_neighbors_request → exn + find_neighbors_response.
Variables endpoint_name DEPLOYED_INDEX_ID : string.

Local Abbreviation execute :=
  (execute get_embeddings find_neighbors endpoint_name DEPLOYED_INDEX_ID).

Lemma neighbor_block_cases nb :
  (has_attributes nb ∧ neighbor_block nb = inr (block_of nb))
  ∨ (¬ has_attributes nb ∧ neighbor_block nb = inl (Exn StopIteration "")).
Proof.
  unfold neighbor_block, and_then, has_attributes.
  rewrite !next_string_value_attribute.
  destruct (attribute "text" nb) as [text|] eqn:Htext.
  - destruct (attribute "source" nb) as [source|] eqn:Hsource.
    + left. split; [by split|]. unfold block_of. by rewrite Htext, Hsource.
    + right. split; [|done]. intros [_ [x Hx]]. done.
  - right. split; [|done]. intros [[x Hx] _]. done.
Qed.

(** The blocks are collected for all neighbors or for none. *)
Lemma collect_cases (nbs : list neighbor) :
  (Forall has_attributes nbs ∧ collect neighbor_block nbs = inr (block_of <$> nbs))
  ∨ (¬ Forall has_attributes nbs
     ∧ collect neighbor_block nbs = inl (Exn StopIteration "")).
Proof.
  induction nbs as [|nb nbs IH]; [left; by split|].
  cbn [collect]. destruct (neighbor_block_cases nb) as [[Hnb ->]|[Hnb ->]].
  - cbn [and_then]. destruct IH as [[Hall ->]|[Hnot ->]].
    + left. split; [by constructor|done].
    + right. split; [|done]. intros Hall. apply Hnot. by inversion Hall.
  - right. split; [|done]. intros Hall. apply Hnb. by inversion Hall.
Qed.

Lemma rendering_blocks (nbs : list neighbor) :
  match block_of <$> nbs with
  | [] => no_results
  | _ => Str.join (Str.nl +:+ Str.nl) (block_of <$> nbs)
  end = rendering nbs.
Proof. by destruct nbs. Qed.

(** What [execute] does once both services have answered. *)
Lemma execute_after_answers query_text v rest response :
  get_embeddings [query_text] = inr (v :: rest) →
  find_neighbors (request_for endpoint_name DEPLOYED_INDEX_ID v) = inr response →
  execute query_text
  = match collect neighbor_block (first_neighbors response) with
    | inr blocks =>
        inr match blocks with
            | [] => no_results
            | _ => Str.join (Str.nl +:+ Str.nl) blocks
            end
    | inl e => inl e
    end.
Proof.
  intros Hembed Hfind. unfold Retrieval.execute, and_then. rewrite Hembed.
  unfold request_for in Hfind. rewrite Hfind. unfold first_neighbors.
  destruct (nearest_neighbors response) as [|first others]; [done|].
  by destruct (collect neighbor_block (neighbors first)) as [e|[|b bs]].
Qed.

(** X19.  One neighbor of the first result set without a ["text"] or a
    ["source"] costs the whole answer: [execute] raises [StopIteration],
    whatever the other neighbors carry. *)
Theorem neighbor_without_attribute_raises (query_text : string) (v : vector)
    (rest : list vector) (response : find_neighbors_response)
    (Hembed : get_embeddings [query_text] = inr (v :: rest))
    (Hfind : find_neighbors (request_for endpoint_name DEPLOYED_INDEX_ID v)
             = inr response)
    (Hlacks : ¬ Forall has_attributes (first_neighbors response)) :
  execute query_text = inl (Exn StopIteration "").
Proof.
  rewrite (execute_after_answers _ _ _ _ Hembed Hfind).
  by destruct (collect_cases (first_neighbors response)) as [[Hall _]|[_ ->]].
Qed.

Lemma execute_returns_inv query_text answer :
  execute query_text = inr answer →
  ∃ v rest response,
    get_embeddings [query_text] = inr (v :: rest)
    ∧ find_neighbors (request_for endpoint_name DEPLOYED_INDEX_ID v) = inr response
    ∧ Forall has_attributes (first_neighbors response)
    ∧ answer = rendering (first_neighbors response).
Proof.
  intros Hrun.
  destruct (get_embeddings [query_text]) as [e|[|v rest]] eqn:Hembed;
    try (unfold Retrieval.execute, and_then in Hrun; rewrite Hembed in Hrun;
         discriminate Hrun).
  destruct (find_neighbors (request_for endpoint_name DEPLOYED_INDEX_ID v))
    as [e|response] eqn:Hfind.
  { unfold Retrieval.execute, and_then in Hrun. rewrite Hembed in Hrun.
    unfold request_for in Hfind. rewrite Hfind in Hrun. discriminate Hrun. }
  rewrite (execute_after_answers _ _ _ _ Hembed Hfind) in Hrun.
  exists v, rest, response. split; [done|]. split; [done|].
  destruct (collect_cases (first_neighbors response)) as [[Hall Hc]|[_ Hc]];
    rewrite Hc in Hrun; [|discriminate Hrun].
  split; [done|]. injection Hrun as <-. apply rendering_blocks.
Qed.

(** X20.  [execute] returns an answer only when the embedding service gave
    a vector, the lookup service answered the request made of it, and
    every neighbor of the first result set has its attributes; the answer
    is then the rendering of those neighbors.  Any failure of a service is
    an exception, never the sentinel. *)
Theorem answers_need_both_services (query_text answer : string)
    (Hrun : execute query_text = inr answer) :
  ∃ v rest response,
    get_embeddings [query_text] = inr (v :: rest)
    ∧ find_neighbors (request_for endpoint_name DEPLOYED_INDEX_ID v) = inr response
    ∧ Forall has_attributes (first_neighbors response)
    ∧ answer = rendering (first_neighbors response).
Proof. by apply execute_returns_inv. Qed.

Lemma rendering_not_empty (nbs : list neighbor) : rendering nbs ≠ "".
Proof.
  destruct nbs as [|nb [|nb' nbs]]; [done|done|].
  unfold rendering, Str.join. cbn [fmap list_fmap String.concat]. done.
Qed.

(** X21.  An answer of [execute] is never the empty string. *)
Theorem answers_are_never_empty (query_text answer : string)
    (Hrun : execute query_text = inr answer) :
  answer ≠ "".
Proof.
  destruct (execute_returns_inv _ _ Hrun) as (v & rest & response & _ & _ & _ & ->).
  apply rendering_not_empty.
Qed.

End RetrievalMoreProperties.

(** *** The retrieval tool on further concrete responses *)

Lemma neighbor_without_attribute_witness :
  ¬ Forall Retrieval.has_attributes
      [Scenario.neighbor_one; Cases.neighbor_without_source]
  ∧ Retrieval.execute Scenario.embed Cases.find_incomplete "endpoint" "deployed"
      "query"
    = inl (Exn StopIteration "").
Proof.
  assert (Hlacks : ¬ Forall Retrieval.has_attributes
                       [Scenario.neighbor_one; Cases.neighbor_without_source]).
  { intros Hall. apply Forall_cons_1 in Hall as [_ Htail].
    apply Forall_cons_1 in Htail as [[_ [source Hsource]] _].
    discriminate Hsource. }
  split; [exact Hlacks|].
  apply (neighbor_without_attribute_raises Scenario.embed Cases.find_incomplete
           "endpoint" "deployed" "query" [1 # 2; 1 # 4]%Q []
           (Retrieval.FindNeighborsResponse
              [Retrieval.ResultSet
                 [Scenario.neighbor_one; Cases.neighbor_without_source]])
           eq_refl eq_refl Hlacks).
Defined.

Lemma scenario_answer :
  Retrieval.execute Scenario.embed Scenario.find_two "endpoint" "deployed" "query"
  = inr ("Source: https://example.com/a" +:+ Str.nl +:+ "Content: first text").
Proof. reflexivity. Qed.

Lemma answers_need_both_services_witness :
  Retrieval.execute Scenario.embed Scenario.find_two "endpoint" "deployed" "query"
  = inr ("Source: https://example.com/a" +:+ Str.nl +:+ "Content: first text")
  ∧ ∃ v rest response,
      Scenario.embed ["query"] = inr (v :: rest)
      ∧ Scenario.find_two (Retrieval.request_for "endpoint" "deployed" v)
        = inr response.
Proof.
  split; [exact scenario_answer|].
  destruct (answers_need_both_services Scenario.embed Scenario.find_two
              "endpoint" "deployed" "query" _ scenario_answer)
    as (v & rest & response & Hembed & Hfind & _).
  by exists v, rest, response.
Defined.

Lemma answers_are_never_empty_witness :
  Retrieval.execute Scenario.embed Scenario.find_two "endpoint" "deployed" "query"
  = inr ("Source: https://example.com/a" +:+ Str.nl +:+ "Content: first text")
  ∧ "Source: https://example.com/a" +:+ Str.nl +:+ "Content: first text" ≠ "".
Proof.
  split; [exact scenario_answer|].
  apply (answers_are_never_empty Scenario.embed Scenario.find_two
           "endpoint" "deployed" "query" _ scenario_answer).
Defined.

(** ** The web search tool *)

Section GoogleSearchProperties.

Import GoogleSearch.

Variable search : list string → exn + list search_result.

Lemma append_items_app (items : list search_item) (output : list string) :
  append_items items output = output ++ (item_block <$> items).
Proof.
  revert output. induction items as [|it items IH]; intros output.
  - by rewrite app_nil_r.
  - cbn [append_items]. rewrite IH, <- app_assoc. done.
Qed.

Lemma append_results_app (rs : list search_result) (output : list string) :
  append_results rs output = output ++ (item_block <$> concat (results <$> rs)).
Proof.
  revert output. induction rs as [|r rs IH]; intros output.
  - by rewrite app_nil_r.
  - cbn [append_results]. rewrite fmap_cons. cbn [concat]. rewrite fmap_app.
    destruct (results r) as [|it items] eqn:Hr.
    + by rewrite IH.
    + rewrite IH, append_items_app, <- app_assoc. done.
Qed.

(** X22.  When the search answers, [execute] returns one block for every
    hit of every query, in the order of the queries and of their hits,
    joined by empty lines; with no hit at all the text is empty, there is
    no sentinel. *)
Theorem search_output_lists_every_hit (queries : list string)
    (rs : list search_result) (Hsearch : search queries = inr rs) :
  execute search queries
  = inr (Str.join (Str.nl +:+ Str.nl) (item_block <$> concat (results <$> rs)))
  ∧ (Forall (λ r, results r = []) rs → execute search queries = inr "").
Proof.
  assert (Hrun : execute search queries
                 = inr (Str.join (Str.nl +:+ Str.nl)
                          (item_block <$> concat (results <$> rs)))).
  { unfold execute, Retrieval.and_then. rewrite Hsearch.
    by rewrite append_results_app. }
  split; [exact Hrun|]. intros Hnone. rewrite Hrun.
  assert (Hempty : concat (results <$> rs) = []).
  { clear Hrun Hsearch. induction Hnone as [|r rs' Hr _ IH]; [done|].
    rewrite fmap_cons. cbn [concat]. by rewrite Hr, IH. }
  by rewrite Hempty.
Qed.

End GoogleSearchProperties.

Lemma search_output_witness :
  GoogleSearch.execute Cases.search ["x"; "y"; "z"]
  = inr ("Source: A" +:+ Str.nl +:+ "URL: https://a.example" +:+ Str.nl
         +:+ "Snippet: first" +:+ Str.nl +:+ Str.nl
         +:+ "Source: B" +:+ Str.nl +:+ "URL: https://b.example" +:+ Str.nl
         +:+ "Snippet: second" +:+ Str.nl +:+ Str.nl
         +:+ "Source: C" +:+ Str.nl +:+ "URL: https://c.example" +:+ Str.nl
         +:+ "Snippet: third").
Proof.
  exact (proj1 (search_output_lists_every_hit Cases.search ["x"; "y"; "z"] _
                  eq_refl)).
Defined.

(** ** The code execution tool *)

Section CodeAgentProperties.

Import CodeAgent.

Variable python_c : string → process_outcome.

Lemma run_python_code_message (code : string) (ran : list string) :
  (_run_python_code python_c code ran).1 ≠ ""
  ∧ (_run_python_code python_c code ran).2 = ran ++ [code].
Proof.
  unfold _run_python_code, subprocess_run.
  destruct (python_c code) as [rc out err| |e].
  - by destruct (rc =? 0)%Z.
  - done.
  - done.
Qed.

(** X23.  The code execution tool never raises: whatever the interpreter
    does (exit status, timeout, failure to start), [_execute_tool] returns
    a non-empty message.  The interpreter is started once, on the ["code"]
    parameter itself, exactly when that parameter is present and not
    empty; otherwise nothing is run.  Any other tool name raises
    [ValueError] and runs nothing. *)
Theorem code_execution_tool_never_raises (tool_name : string)
    (params : gmap string string) (ran : list string) :
  (∃ message, result (_execute_tool python_c "code_execution_tool" params ran)
              = inr message ∧ message ≠ "")
  ∧ final (_execute_tool python_c "code_execution_tool" params ran)
    = match params !! "code" with
      | Some code => if String.eqb code "" then ran else ran ++ [code]
      | None => ran
      end
  ∧ (tool_name ≠ "code_execution_tool" →
     _execute_tool python_c tool_name params ran
     = (inl (Exn ValueError ("Unknown tool: " +:+ tool_name)), ran)).
Proof.
  split; [|split].
  - unfold _execute_tool. cbn [String.eqb Ascii.eqb Bool.eqb].
    destruct (params !! "code") as [code|]; [|by eexists].
    destruct (String.eqb code ""); [by eexists|].
    eexists. split; [reflexivity|]. apply run_python_code_message.
  - unfold _execute_tool. cbn [String.eqb Ascii.eqb Bool.eqb].
    destruct (params !! "code") as [code|]; [|done].
    destruct (String.eqb code ""); [done|].
    apply run_python_code_message.
  - intros Hname. unfold _execute_tool.
    apply String.eqb_neq in Hname. by rewrite Hname.
Qed.

End CodeAgentProperties.

Lemma code_execution_tool_witness :
  "shell" ≠ "code_execution_tool"
  ∧ CodeAgent._execute_tool Cases.python_c "shell" {["code" := "exit(3)"]} []
    = (inl (Exn ValueError "Unknown tool: shell"), []).
Proof.
  split; [discriminate|].
  exact (proj2 (proj2 (code_execution_tool_never_raises Cases.python_c "shell"
                         {["code" := "exit(3)"]} []))
           ltac:(discriminate)).
Defined.

Example code_execution_outcomes :
  CodeAgent._execute_tool Cases.python_c "code_execution_tool"
    {["code" := "exit(3)"]} []
  = (inr ("Execution failed with an error." +:+ Str.nl +:+ "Error:" +:+ Str.nl
          +:+ "boom"), ["exit(3)"])
  ∧ CodeAgent._execute_tool Cases.python_c "code_execution_tool"
      {["code" := "while True: pass"]} []
    = (inr "Execution timed out after 15 seconds. The code may be in an infinite loop.",
       ["while True: pass"])
  ∧ CodeAgent._execute_tool Cases.python_c "code_execution_tool"
      {["code" := ""]} []
    = (inr "Error: The 'code' parameter is missing from the tool call.", []).
Proof. by vm_compute. Qed.

(** ** The tool that delegates to a sub-agent *)

Section AgentToolProperties.

Import AgentTool.

Variable generate_content : string → exn + string.

(** X24.  [run] sends the sub-agent at most one query, the ["query"]
    argument itself, and never an empty one; when it sends nothing it
    returns its error message and does not raise. *)
Theorem sub_agent_gets_only_real_queries (kwargs : gmap string string)
    (sent : list string) :
  ∃ new,
    final (run generate_content kwargs sent) = sent ++ new
    ∧ match new with
      | [] => result (run generate_content kwargs sent)
              = inr "Error: No query provided to the sub-agent."
      | [query] => kwargs !! "query" = Some query ∧ query ≠ ""
                   ∧ result (run generate_content kwargs sent)
                     = generate_content query
      | _ => False
      end.
Proof.
  unfold run. destruct (kwargs !! "query") as [query|] eqn:Hquery;
    cbn [default from_option id].
  - destruct (String.eqb query "") eqn:Hempty.
    + exists []. split; [|done]. unfold final, ret. cbn [snd].
      by rewrite app_nil_r.
    + exists [query]. split; [done|]. split; [done|].
      split; [|done]. by apply String.eqb_neq.
  - exists []. split; [|done]. unfold final, ret. cbn [snd].
    by rewrite app_nil_r.
Qed.

End AgentToolProperties.

Example delegation_of_a_query :
  AgentTool.run Cases.generate_content {["query" := "plan a trip"]} []
  = (inr "answer to plan a trip", ["plan a trip"])
  ∧ AgentTool.run Cases.generate_content {["task" := "plan a trip"]} []
    = (inr "Error: No query provided to the sub-agent.", []).
Proof. by vm_compute. Qed.
